(** * A feed-forward network engine: layers, batched updates and the fit loop

  Shallow embedding of [nn/layer.py] and [nn/network.py].

  Numbers: numpy's float64 values are idealised as real numbers, in the
  way numerical developments relate a float program to its real model.
  Arrays: a 1-D array is a list of reals, a 2-D array keeps its column
  count next to its rows, as numpy keeps a shape.  A numpy operation that
  raises (shape mismatch, reduction of an empty array, a missing
  attribute) returns [None]; an exception aborts the enclosing call.
  Elementwise operations are modelled on operands of one shape, which is
  all that layers built by [__init__] ever combine; on other shapes they
  return [None] as well. *)

From Stdlib Require Import Reals List ZArith Lia Lra Bool Arith.
Import ListNotations.
Local Open Scope R_scope.

(** ** Exceptions as an option monad *)

Definition bind {A B : Type} (m : option A) (k : A -> option B) : option B :=
match m with
| Some a => k a
| None => None
end.

Notation "x <- m ;; k" := (bind m (fun x => k))
(at level 61, m at next level, right associativity).
Notation "' p <- m ;; k" := (bind m (fun p => k))
(at level 61, p pattern, m at next level, right associativity).

(** ** The numpy operations the layers use *)

Module Np.

Definition ndarray1 := list R.

(** A 2-D array of shape [(length rows, ncols)]. *)
Record ndarray2 := mkArr2 { ncols : nat; rows : list (list R) }.

Definition nrows (A : ndarray2) : nat := length (rows A).

Definition same_shape (A B : ndarray2) : bool :=
  (nrows A =? nrows B)%nat && (ncols A =? ncols B)%nat.

Fixpoint zip_with {A B C : Type} (f : A -> B -> C)
         (l1 : list A) (l2 : list B) : list C :=
  match l1, l2 with
  | x :: l1', y :: l2' => f x y :: zip_with f l1' l2'
  | _, _ => []
  end.

(** [np.sum] of a 1-D array. *)
Definition sum (v : ndarray1) : R := fold_right Rplus 0 v.

(** Inner product of two 1-D arrays of one length. *)
Definition inner (u v : ndarray1) : R := sum (zip_with Rmult u v).

Definition column (j : nat) (A : ndarray2) : ndarray1 :=
  map (fun r => nth j r 0) (rows A).

(** [A.T] *)
Definition transpose (A : ndarray2) : ndarray2 :=
  {| ncols := nrows A;
     rows := map (fun j => column j A) (seq 0 (ncols A)) |}.

(** [np.dot(v, A)] for a 1-D [v] and a 2-D [A]. *)
Definition dot_vm (v : ndarray1) (A : ndarray2) : option ndarray1 :=
  if (length v =? nrows A)%nat
  then Some (map (fun j => inner v (column j A)) (seq 0 (ncols A)))
  else None.

(** [np.dot(A, B)] for two 2-D arrays. *)
Definition dot_mm (A B : ndarray2) : option ndarray2 :=
  if (ncols A =? nrows B)%nat
  then Some {| ncols := ncols B;
               rows := map (fun r => map (fun j => inner r (column j B))
                                         (seq 0 (ncols B)))
                           (rows A) |}
  else None.

(** [np.diag(v)] for a 1-D [v]: the square array with [v] on its diagonal. *)
Definition diag (v : ndarray1) : ndarray2 :=
  {| ncols := length v;
     rows := map (fun i => map (fun j => if (i =? j)%nat then nth i v 0 else 0)
                               (seq 0 (length v)))
                 (seq 0 (length v)) |}.

(** [np.diag(A)] for a 2-D [A]: its main diagonal. *)
Definition diagonal (A : ndarray2) : ndarray1 :=
  map (fun i => nth i (nth i (rows A) []) 0)
      (seq 0 (Nat.min (nrows A) (ncols A))).

(** [np.outer(u, v)] *)
Definition outer (u v : ndarray1) : ndarray2 :=
  {| ncols := length v; rows := map (fun x => map (Rmult x) v) u |}.

(** An elementwise function on a 2-D array. *)
Definition map2d (f : R -> R) (A : ndarray2) : ndarray2 :=
  {| ncols := ncols A; rows := map (map f) (rows A) |}.

(** [v * A]: the 1-D [v] multiplied into every row of [A]. *)
Definition mul_rows (v : ndarray1) (A : ndarray2) : option ndarray2 :=
  if (length v =? ncols A)%nat
  then Some {| ncols := ncols A; rows := map (zip_with Rmult v) (rows A) |}
  else None.

(** [u + v] for 1-D arrays of one length. *)
Definition add (u v : ndarray1) : option ndarray1 :=
  if (length u =? length v)%nat then Some (zip_with Rplus u v) else None.

Definition add2 (A B : ndarray2) : ndarray2 :=
  {| ncols := ncols A;
     rows := zip_with (zip_with Rplus) (rows A) (rows B) |}.

(** The value of [np.sum(l, axis=0)] for a Python list [l] of arrays:
    the scalar [0.0] when [l] is empty, else an array of the entries'
    shape. *)
Inductive reduced (A : Type) : Type :=
| Scalar (x : R)
| Arr (a : A).
Arguments Scalar {A} x.
Arguments Arr {A} a.

Definition sum_axis0_1 (l : list ndarray1) : option (reduced ndarray1) :=
  match l with
  | [] => Some (Scalar 0)
  | g :: l' =>
      if forallb (fun h => (length h =? length g)%nat) l'
      then Some (Arr (fold_left (zip_with Rplus) l' g))
      else None
  end.

Definition sum_axis0_2 (l : list ndarray2) : option (reduced ndarray2) :=
  match l with
  | [] => Some (Scalar 0)
  | g :: l' =>
      if forallb (same_shape g) l'
      then Some (Arr (fold_left add2 l' g))
      else None
  end.

(** [a -= lr * s], in place, for 1-D [a]. *)
Definition isub_scaled_1 (a : ndarray1) (lr : R) (s : reduced ndarray1)
  : option ndarray1 :=
  match s with
  | Scalar x => Some (map (fun w => w - lr * x) a)
  | Arr g =>
      if (length g =? length a)%nat
      then Some (zip_with (fun w d => w - lr * d) a g)
      else None
  end.

(** [A -= lr * S], in place, for 2-D [A]. *)
Definition isub_scaled_2 (A : ndarray2) (lr : R) (s : reduced ndarray2)
  : option ndarray2 :=
  match s with
  | Scalar x =>
      Some {| ncols := ncols A;
              rows := map (map (fun w => w - lr * x)) (rows A) |}
  | Arr G =>
      if same_shape G A
      then Some {| ncols := ncols A;
                   rows := zip_with (zip_with (fun w d => w - lr * d))
                                    (rows A) (rows G) |}
      else None
  end.

(** [np.max] of a 1-D array; raises on an empty one. *)
Definition max (v : ndarray1) : option R :=
  match v with
  | [] => None
  | x :: v' => Some (fold_left Rmax v' x)
  end.

(** [np.argmax] of a 1-D array: the first index of a largest entry;
    raises on an empty array. *)
Fixpoint argmax_from (best : nat) (bv : R) (i : nat) (v : ndarray1) : nat :=
  match v with
  | [] => best
  | x :: v' =>
      if Rlt_dec bv x then argmax_from i x (S i) v'
      else argmax_from best bv (S i) v'
  end.

Definition argmax (v : ndarray1) : option nat :=
  match v with
  | [] => None
  | x :: v' => Some (argmax_from 0%nat x 1%nat v')
  end.

(** [np.zeros(n)] with entry [k] set to [1]. *)
Definition one_hot (n k : nat) : ndarray1 :=
  map (fun i => if (i =? k)%nat then 1 else 0) (seq 0 n).

(** [np.array_equal] on 1-D arrays. *)
Fixpoint array_equal (u v : ndarray1) : bool :=
  match u, v with
  | [], [] => true
  | x :: u', y :: v' =>
      if Req_dec_T x y then array_equal u' v' else false
  | _, _ => false
  end.

(** Representation invariant of a 2-D array: every row has [ncols]
    entries. *)
Definition well_formed (A : ndarray2) : Prop :=
  Forall (fun r => length r = ncols A) (rows A).

End Np.

(** ** Activation strategies *)

Module Activation.

(** Modelled from the spec: [nn/activation.py] is not part of the sources.
    An activation is an elementwise nonlinearity with an elementwise
    derivative; [call] stands for [__call__]. *)
Record t := mk { call : R -> R; gradient : R -> R }.

(** Modelled from the spec: the Relu-like activation, [max(x, 0)] with
    derivative [1] on the positive side and [0] elsewhere. *)
Definition Relu : t :=
  {| call := fun x => Rmax x 0;
     gradient := fun x => if Rlt_dec 0 x then 1 else 0 |}.

End Activation.

(** ** Layers *)

Module InputLayer.

Record t := mk { size : nat }.

Definition forward_pass (self : t) (X : Np.ndarray1) : t * Np.ndarray1 :=
  (self, X).

Definition backward_pass (self : t) (X : Np.ndarray1) : t * Np.ndarray1 :=
  (self, X).

End InputLayer.

Module HiddenLayer.

(** [input] and [output] are attributes that exist only once
    [forward_pass] has run. *)
Record t := mk {
  size : nat;
  W : Np.ndarray2;
  b : Np.ndarray1;
  _learning_rate : R;
  _activation : Activation.t;
  W_gradients : list Np.ndarray2;
  b_gradients : list Np.ndarray1;
  input : option Np.ndarray1;
  output : option Np.ndarray1
}.

Definition update_parameters (self : t) : option t :=
  sW <- Np.sum_axis0_2 (W_gradients self) ;;
  W' <- Np.isub_scaled_2 (W self) (_learning_rate self) sW ;;
  sb <- Np.sum_axis0_1 (b_gradients self) ;;
  b' <- Np.isub_scaled_1 (b self) (_learning_rate self) sb ;;
  Some {| size := size self; W := W'; b := b';
          _learning_rate := _learning_rate self;
          _activation := _activation self;
          W_gradients := []; b_gradients := [];
          input := input self; output := output self |}.

Definition forward_pass (self : t) (X : Np.ndarray1)
  : option (t * Np.ndarray1) :=
  xw <- Np.dot_vm X (W self) ;;
  z <- Np.add xw (b self) ;;
  let out := map (Activation.call (_activation self)) z in
  Some ({| size := size self; W := W self; b := b self;
           _learning_rate := _learning_rate self;
           _activation := _activation self;
           W_gradients := W_gradients self;
           b_gradients := b_gradients self;
           input := Some X; output := Some out |}, out).

Definition backward_pass (self : t) (J_L_N : Np.ndarray1)
  : option (t * Np.ndarray1) :=
  let J_N_sum :=
    Np.map2d (Activation.gradient (_activation self)) (Np.diag J_L_N) in
  J_N_N_prev <- Np.dot_mm J_N_sum (Np.transpose (W self)) ;;
  inp <- input self ;;
  let J_N_W_hat := Np.outer inp (Np.diagonal J_N_sum) in
  J_L_W <- Np.mul_rows J_L_N J_N_W_hat ;;
  let J_L_b := Np.diagonal J_N_sum in
  J_L_N_prev <- Np.dot_vm J_L_N J_N_N_prev ;;
  Some ({| size := size self; W := W self; b := b self;
           _learning_rate := _learning_rate self;
           _activation := _activation self;
           W_gradients := W_gradients self ++ [J_L_W];
           b_gradients := b_gradients self ++ [J_L_b];
           input := input self; output := output self |}, J_L_N_prev).

End HiddenLayer.

Module SoftmaxLayer.

Record t := mk {
  size : nat;
  input : option Np.ndarray1;
  output : option Np.ndarray1
}.

Definition forward_pass (self : t) (X : Np.ndarray1)
  : option (t * Np.ndarray1) :=
  m <- Np.max X ;;
  let e := map (fun x => exp (x - m)) X in
  let out := map (fun x => x / Np.sum e) e in
  Some ({| size := size self; input := Some X; output := Some out |}, out).

(** The array the two loops leave in [J_S_N]. *)
Definition jacobian (out : Np.ndarray1) : Np.ndarray2 :=
  {| Np.ncols := length out;
     Np.rows :=
       map (fun i =>
              map (fun j =>
                     if (i =? j)%nat
                     then nth i out 0 - (nth i out 0) ^ 2
                     else - nth i out 0 * nth j out 0)
                  (seq 0 (length out)))
           (seq 0 (length out)) |}.

Definition backward_pass (self : t) (J_L_S : Np.ndarray1)
  : option (t * Np.ndarray1) :=
  out <- output self ;;
  let J_S_N := jacobian out in
  J_L_N <- Np.dot_vm J_L_S J_S_N ;;
  Some (self, J_L_N).

End SoftmaxLayer.

(** The three layer classes behind the common [Layer] interface. *)
Inductive Layer : Type :=
| LInput (l : InputLayer.t)
| LHidden (l : HiddenLayer.t)
| LSoftmax (l : SoftmaxLayer.t).

Definition Layer_forward_pass (layer : Layer) (X : Np.ndarray1)
  : option (Layer * Np.ndarray1) :=
  match layer with
  | LInput l =>
      let '(l', out) := InputLayer.forward_pass l X in Some (LInput l', out)
  | LHidden l =>
      '(l', out) <- HiddenLayer.forward_pass l X ;; Some (LHidden l', out)
  | LSoftmax l =>
      '(l', out) <- SoftmaxLayer.forward_pass l X ;; Some (LSoftmax l', out)
  end.

Definition Layer_backward_pass (layer : Layer) (J : Np.ndarray1)
  : option (Layer * Np.ndarray1) :=
  match layer with
  | LInput l =>
      let '(l', out) := InputLayer.backward_pass l J in Some (LInput l', out)
  | LHidden l =>
      '(l', out) <- HiddenLayer.backward_pass l J ;; Some (LHidden l', out)
  | LSoftmax l =>
      '(l', out) <- SoftmaxLayer.backward_pass l J ;; Some (LSoftmax l', out)
  end.

(** ** Loss and regularization strategies *)

Module Loss.
(** Modelled from the spec: [nn/loss.py] is not part of the sources.  A loss
    maps a prediction and a label to a scalar and has a gradient with
    respect to the prediction. *)
Record t := mk {
  call : Np.ndarray1 -> Np.ndarray1 -> R;
  gradient : Np.ndarray1 -> Np.ndarray1 -> Np.ndarray1
}.
End Loss.

Module Regularization.
(** Modelled from the spec: [nn/regularization.py] is not part of the
    sources.  A regularization maps a weight matrix to a scalar penalty. *)
Record t := mk { call : Np.ndarray2 -> R }.
End Regularization.

(** ** The network *)

(** Ghost events: what [fit] does to the parameters, in order.  [EvSample]
    is one training sample sent forward and backward through the layers,
    [EvUpdate] one call of [_update_parameters]. *)
Inductive event : Type := EvSample | EvUpdate.

Module Network.

Definition history := list (nat * R).

Record t := mk {
  layers : list Layer;
  loss_function : Loss.t;
  learning_rate : R;
  batch_size : Z;
  wreg : R;
  wrt : option Regularization.t;
  train_loss : history;
  val_loss : history;
  train_accuracy : history;
  val_accuracy : history
}.

Definition with_layers (self : t) (ls : list Layer) : t :=
  {| layers := ls; loss_function := loss_function self;
     learning_rate := learning_rate self; batch_size := batch_size self;
     wreg := wreg self; wrt := wrt self;
     train_loss := train_loss self; val_loss := val_loss self;
     train_accuracy := train_accuracy self;
     val_accuracy := val_accuracy self |}.

(** A tensor handed from layer to layer along [ls], each layer's method [f]
    leaving its layer updated. *)
Fixpoint thread (f : Layer -> Np.ndarray1 -> option (Layer * Np.ndarray1))
         (ls : list Layer) (x : Np.ndarray1)
  : option (list Layer * Np.ndarray1) :=
  match ls with
  | [] => Some ([], x)
  | l :: ls' =>
      '(l', x') <- f l x ;;
      '(ls'', x'') <- thread f ls' x' ;;
      Some (l' :: ls'', x'')
  end.

Definition _forward_pass (self : t) (X : Np.ndarray1)
  : option (t * Np.ndarray1) :=
  '(ls, output) <- thread Layer_forward_pass (layers self) X ;;
  Some (with_layers self ls, output).

(** [for layer in self.layers[::-1]] *)
Definition _backward_pass (self : t) (J_L_S : Np.ndarray1) : option t :=
  '(rls, _) <- thread Layer_backward_pass (rev (layers self)) J_L_S ;;
  Some (with_layers self (rev rls)).

Fixpoint update_layers (ls : list Layer) : option (list Layer) :=
  match ls with
  | [] => Some []
  | LHidden h :: ls' =>
      h' <- HiddenLayer.update_parameters h ;;
      ls'' <- update_layers ls' ;;
      Some (LHidden h' :: ls'')
  | l :: ls' =>
      ls'' <- update_layers ls' ;;
      Some (l :: ls'')
  end.

Definition _update_parameters (self : t) : option t :=
  ls <- update_layers (layers self) ;;
  Some (with_layers self ls).

(** The regularization terms added to a running loss total. *)
Definition add_regularization (self : t) (aggregated : R) : R :=
  match wrt self with
  | None => aggregated
  | Some reg =>
      fold_left
        (fun a layer =>
           match layer with
           | LHidden h =>
               a + wreg self * Regularization.call reg (HiddenLayer.W h)
           | _ => a
           end)
        (layers self) aggregated
  end.

(** One training sample: the body of the inner training loop up to the
    backward pass. *)
Definition train_sample (self : t) (aggregated_train_loss : R)
           (num_train_correct : nat) (X y : Np.ndarray1)
  : option (t * R * nat) :=
  '(self1, y_hat) <- _forward_pass self X ;;
  let aggregated :=
    add_regularization self1
      (aggregated_train_loss + Loss.call (loss_function self1) y_hat y) in
  k <- Np.argmax y_hat ;;
  let prediction := Np.one_hot (length y_hat) k in
  let num_correct :=
    if Np.array_equal prediction y
    then S num_train_correct else num_train_correct in
  let J_L_S := Loss.gradient (loss_function self1) y_hat y in
  self2 <- _backward_pass self1 J_L_S ;;
  Some (self2, aggregated, num_correct).

(** [(epoch*len(X_train) + i + 1) % self.batch_size == 0]; Python's [%] on
    integers is [Z.modulo] and raises when the divisor is zero. *)
Definition batch_processed (self : t) (epoch len_X_train i : nat)
  : option bool :=
  if (batch_size self =? 0)%Z then None
  else Some (Z.of_nat (epoch * len_X_train + i + 1) mod batch_size self =? 0)%Z.

(** The local variables a loop of [fit] carries: the network, the running
    loss total, the count of correct predictions, the loop variable [i]
    (unbound until a loop has run once) and the ghost trace. *)
Record locals := mkLocals {
  net : t;
  aggregated : R;
  num_correct : nat;
  i_var : option nat;
  trace : list event
}.

Fixpoint train_loop (epoch len_X_train : nat) (i : nat)
         (samples : list (Np.ndarray1 * Np.ndarray1)) (st : locals)
  : option locals :=
  match samples with
  | [] => Some st
  | (X, y) :: samples' =>
      '(self1, agg, nc) <-
        train_sample (net st) (aggregated st) (num_correct st) X y ;;
      upd <- batch_processed self1 epoch len_X_train i ;;
      '(self2, tr) <-
        (if upd : bool
         then self2 <- _update_parameters self1 ;;
              Some (self2, trace st ++ [EvSample; EvUpdate])
         else Some (self1, trace st ++ [EvSample])) ;;
      train_loop epoch len_X_train (S i) samples'
        {| net := self2; aggregated := agg; num_correct := nc;
           i_var := Some i; trace := tr |}
  end.

(** [val_correct[k] += 1] on the dictionary with keys [0 .. n-1], kept as
    the list of its values; a missing key raises. *)
Definition incr (val_correct : list nat) (k : nat) : option (list nat) :=
  if (k <? length val_correct)%nat
  then Some (firstn k val_correct ++ S (nth k val_correct 0%nat)
                    :: skipn (S k) val_correct)
  else None.

(** One validation sample: the body of the validation loop. *)
Definition val_sample (self : t) (aggregated_val_loss : R)
           (num_val_correct : nat) (val_correct : list nat)
           (X y : Np.ndarray1)
  : option (t * R * nat * list nat) :=
  '(self1, y_hat) <- _forward_pass self X ;;
  let aggregated :=
    add_regularization self1
      (aggregated_val_loss + Loss.call (loss_function self1) y_hat y) in
  k <- Np.argmax y_hat ;;
  let prediction := Np.one_hot (length y_hat) k in
  if Np.array_equal prediction y
  then vc <- incr val_correct k ;;
       Some (self1, aggregated, S num_val_correct, vc)
  else Some (self1, aggregated, num_val_correct, val_correct).

Fixpoint val_loop (i : nat) (samples : list (Np.ndarray1 * Np.ndarray1))
         (val_correct : list nat) (st : locals)
  : option (locals * list nat) :=
  match samples with
  | [] => Some (st, val_correct)
  | (X, y) :: samples' =>
      '(self1, agg, nc, vc) <-
        val_sample (net st) (aggregated st) (num_correct st) val_correct X y ;;
      val_loop (S i) samples' vc
        {| net := self1; aggregated := agg; num_correct := nc;
           i_var := Some i; trace := trace st |}
  end.

Definition record_train (self : t) (epoch : nat) (loss accuracy : R) : t :=
  {| layers := layers self; loss_function := loss_function self;
     learning_rate := learning_rate self; batch_size := batch_size self;
     wreg := wreg self; wrt := wrt self;
     train_loss := train_loss self ++ [(epoch, loss)];
     val_loss := val_loss self;
     train_accuracy := train_accuracy self ++ [(epoch, accuracy)];
     val_accuracy := val_accuracy self |}.

Definition record_val (self : t) (epoch : nat) (loss accuracy : R) : t :=
  {| layers := layers self; loss_function := loss_function self;
     learning_rate := learning_rate self; batch_size := batch_size self;
     wreg := wreg self; wrt := wrt self;
     train_loss := train_loss self;
     val_loss := val_loss self ++ [(epoch, loss)];
     train_accuracy := train_accuracy self;
     val_accuracy := val_accuracy self ++ [(epoch, accuracy)] |}.

(** The validation block of one epoch. *)
Definition validation_pass (self : t) (epoch : nat)
           (X_val y_val : list Np.ndarray1) (i_var : option nat)
           (tr : list event)
  : option (t * option nat) :=
  y0 <- nth_error y_val 0 ;;
  let val_correct := repeat 0%nat (length y0) in
  '(st, _) <-
    val_loop 0 (combine X_val y_val) val_correct
      {| net := self; aggregated := 0; num_correct := 0%nat;
         i_var := i_var; trace := tr |} ;;
  i <- Network.i_var st ;;
  let val_loss := aggregated st / INR (i + 1) in
  let val_accuracy := INR (num_correct st) / INR (i + 1) in
  Some (record_val (net st) epoch val_loss val_accuracy, Network.i_var st).

(** The body of the epoch loop.  Reading the loop variable [i] while it is
    unbound raises.  The printed report changes no state and is left out. *)
Definition fit_epoch (self : t) (X_train y_train : list Np.ndarray1)
           (X_val y_val : option (list Np.ndarray1)) (epoch : nat)
           (i_var : option nat) (tr : list event)
  : option (t * option nat * list event) :=
  st <-
    train_loop epoch (length X_train) 0 (combine X_train y_train)
      {| net := self; aggregated := 0; num_correct := 0%nat;
         i_var := i_var; trace := tr |} ;;
  i <- Network.i_var st ;;
  let train_loss := aggregated st / INR (i + 1) in
  let train_accuracy := INR (num_correct st) / INR (i + 1) in
  let self1 := record_train (net st) epoch train_loss train_accuracy in
  match X_val, y_val with
  | Some Xv, Some yv =>
      '(self2, i') <-
        validation_pass self1 epoch Xv yv (Network.i_var st) (trace st) ;;
      Some (self2, i', trace st)
  | _, _ => Some (self1, Network.i_var st, trace st)
  end.

(** [for epoch in range(epochs)], from [epoch] on, [count] epochs left. *)
Fixpoint fit_epochs (self : t) (X_train y_train : list Np.ndarray1)
         (X_val y_val : option (list Np.ndarray1)) (epoch count : nat)
         (i_var : option nat) (tr : list event)
  : option (t * option nat * list event) :=
  match count with
  | O => Some (self, i_var, tr)
  | S count' =>
      '(self1, i1, tr1) <-
        fit_epoch self X_train y_train X_val y_val epoch i_var tr ;;
      fit_epochs self1 X_train y_train X_val y_val (S epoch) count' i1 tr1
  end.

Definition clear_history (self : t) : t :=
  {| layers := layers self; loss_function := loss_function self;
     learning_rate := learning_rate self; batch_size := batch_size self;
     wreg := wreg self; wrt := wrt self;
     train_loss := []; val_loss := [];
     train_accuracy := []; val_accuracy := [] |}.

(** [fit]; [epochs] is the length of [range(epochs)].  The result is the
    network after the call and the ghost trace of the call. *)
Definition fit (self : t) (X_train y_train : list Np.ndarray1)
           (X_val y_val : option (list Np.ndarray1)) (epochs : nat)
  : option (t * list event) :=
  '(self1, _, tr) <-
    fit_epochs (clear_history self) X_train y_train X_val y_val
      0 epochs None [] ;;
  Some (self1, tr).

(** [add_layer]: the layer is appended to the list of layers. *)
Definition add_layer (self : t) (layer : Layer) : t :=
  with_layers self (layers self ++ [layer]).

(** [predict]: a forward pass, then [np.zeros] with a [1] at the arg-max. *)
Definition predict (self : t) (X : Np.ndarray1) : option (t * Np.ndarray1) :=
  '(self1, y_hat) <- _forward_pass self X ;;
  k <- Np.argmax y_hat ;;
  Some (self1, Np.one_hot (length y_hat) k).

End Network.

(** * Vocabulary of the statements *)

(** [A] is a well-formed array of shape [(n, m)]. *)
Definition shape_is (n m : nat) (A : Np.ndarray2) : Prop :=
  Np.nrows A = n /\ Np.ncols A = m /\ Np.well_formed A.

(** [A[i][j]] *)
Definition entry (A : Np.ndarray2) (i j : nat) : R :=
  nth j (nth i (Np.rows A) []) 0.

(** What [HiddenLayer.__init__] establishes for [input_size = n]: [W] has
    shape [(n, size)] and [b] has [size] entries; and what [backward_pass]
    keeps: every buffered gradient has the shape of its parameter. *)
Definition hidden_ok (n : nat) (h : HiddenLayer.t) : Prop :=
  shape_is n (HiddenLayer.size h) (HiddenLayer.W h) /\
  length (HiddenLayer.b h) = HiddenLayer.size h /\
  Forall (shape_is n (HiddenLayer.size h)) (HiddenLayer.W_gradients h) /\
  Forall (fun v => length v = HiddenLayer.size h) (HiddenLayer.b_gradients h).

(** ** Networks whose dimensions fit

    [chain d ls d'] : the layers [ls], in order, take a tensor of width [d]
    to one of width [d']; consecutive layers agree on their widths, which is
    the caller's duty when the network is assembled with [add_layer], and a
    Softmax layer is never fed an empty tensor. *)
Fixpoint chain (d : nat) (ls : list Layer) (d' : nat) : Prop :=
  match ls with
  | [] => d = d'
  | LInput _ :: ls' => chain d ls' d'
  | LHidden h :: ls' => hidden_ok d h /\ chain (HiddenLayer.size h) ls' d'
  | LSoftmax _ :: ls' => d <> 0%nat /\ chain d ls' d'
  end.

(** [primed d ls d'] : [chain d ls d'], and every layer holds what a
    forward pass stores in it. *)
Fixpoint primed (d : nat) (ls : list Layer) (d' : nat) : Prop :=
  match ls with
  | [] => d = d'
  | LInput _ :: ls' => primed d ls' d'
  | LHidden h :: ls' =>
      hidden_ok d h /\
      (exists x, HiddenLayer.input h = Some x /\ length x = d) /\
      primed (HiddenLayer.size h) ls' d'
  | LSoftmax s :: ls' =>
      d <> 0%nat /\
      (exists o, SoftmaxLayer.output s = Some o /\ length o = d) /\
      primed d ls' d'
  end.

(** The loss gradient has the length of the prediction. *)
Definition loss_ok (L : Loss.t) : Prop :=
  forall y_hat y, length (Loss.gradient L y_hat y) = length y_hat.

Definition net_ok (d d' : nat) (self : Network.t) : Prop :=
  chain d (Network.layers self) d' /\ d' <> 0%nat /\
  loss_ok (Network.loss_function self) /\
  Network.batch_size self <> 0%Z.

(** Samples of width [d] with labels of width [d'], as many labels as
    samples. *)
Definition data_ok (d d' : nat) (X y : list Np.ndarray1) : Prop :=
  length X = length y /\
  Forall (fun x => length x = d) X /\
  Forall (fun l => length l = d') y.

Definition samples_ok (d : nat) (samples : list (Np.ndarray1 * Np.ndarray1))
  : Prop :=
  Forall (fun s => length (fst s) = d) samples.

(** The optional validation set: absent, or well-formed and not empty. *)
Definition val_ok (d d' : nat) (X_val y_val : option (list Np.ndarray1))
  : Prop :=
  match X_val, y_val with
  | Some Xv, Some yv => data_ok d d' Xv yv /\ yv <> []
  | _, _ => True
  end.

(** The trainable state of a layer: [W], [b] and the two gradient
    buffers of a Hidden layer; the other layers have none. *)
Definition params (l : Layer)
  : option (Np.ndarray2 * Np.ndarray1 * list Np.ndarray2 * list Np.ndarray1) :=
  match l with
  | LHidden h =>
      Some (HiddenLayer.W h, HiddenLayer.b h,
            HiddenLayer.W_gradients h, HiddenLayer.b_gradients h)
  | _ => None
  end.

(** A layer without what the last forward pass stored in it. *)
Definition forget (l : Layer) : Layer :=
  match l with
  | LInput i => LInput i
  | LHidden h =>
      LHidden {| HiddenLayer.size := HiddenLayer.size h;
                 HiddenLayer.W := HiddenLayer.W h;
                 HiddenLayer.b := HiddenLayer.b h;
                 HiddenLayer._learning_rate := HiddenLayer._learning_rate h;
                 HiddenLayer._activation := HiddenLayer._activation h;
                 HiddenLayer.W_gradients := HiddenLayer.W_gradients h;
                 HiddenLayer.b_gradients := HiddenLayer.b_gradients h;
                 HiddenLayer.input := None;
                 HiddenLayer.output := None |}
  | LSoftmax s =>
      LSoftmax {| SoftmaxLayer.size := SoftmaxLayer.size s;
                  SoftmaxLayer.input := None;
                  SoftmaxLayer.output := None |}
  end.

(** [l'] is [l] with unchanged parameters and [k] more entries in each
    gradient buffer. *)
Definition appended (k : nat) (l l' : Layer) : Prop :=
  match l, l' with
  | LInput _, LInput _ => True
  | LSoftmax _, LSoftmax _ => True
  | LHidden h, LHidden h' =>
      HiddenLayer.W h' = HiddenLayer.W h /\
      HiddenLayer.b h' = HiddenLayer.b h /\
      exists (Gs : list Np.ndarray2) (vs : list Np.ndarray1),
        HiddenLayer.W_gradients h' = HiddenLayer.W_gradients h ++ Gs /\
        HiddenLayer.b_gradients h' = HiddenLayer.b_gradients h ++ vs /\
        length Gs = k /\ length vs = k
  | _, _ => False
  end.

(** ** The update schedule

    [schedule bs k0 n] : the events of [n] training samples numbered
    [k0 + 1 .. k0 + n] by one running counter, with an update after every
    sample whose number is a multiple of [bs]. *)
Definition schedule (bs : Z) (k0 n : nat) : list event :=
  flat_map
    (fun k => if (Z.of_nat k mod bs =? 0)%Z then [EvSample; EvUpdate]
              else [EvSample])
    (seq (S k0) n).

(** The number of training samples seen before each update of a trace,
    [seen] having been seen before the trace. *)
Fixpoint update_indices (seen : nat) (tr : list event) : list nat :=
  match tr with
  | [] => []
  | EvSample :: tr' => update_indices (S seen) tr'
  | EvUpdate :: tr' => seen :: update_indices seen tr'
  end.

(** The training samples of a whole [fit] call, in the order they are
    processed. *)
Definition all_samples (X_train y_train : list Np.ndarray1) (epochs : nat)
  : list (Np.ndarray1 * Np.ndarray1) :=
  concat (repeat (combine X_train y_train) epochs).

(** The training loop run over [samples] with a single running counter
    that starts at [k0]: no epochs, no validation, no history. *)
Definition run_samples (self : Network.t) (k0 : nat)
           (samples : list (Np.ndarray1 * Np.ndarray1))
  : option Network.locals :=
  Network.train_loop 0 0 k0 samples
    {| Network.net := self; Network.aggregated := 0;
       Network.num_correct := 0%nat; Network.i_var := None;
       Network.trace := [] |}.

(** ** What training does to the layers

    [sample_layers] : the layers after one training sample went forward
    and its loss gradient backward ([train_sample] without its
    bookkeeping). *)
Definition sample_layers (L : Loss.t) (ls : list Layer) (X y : Np.ndarray1)
  : option (list Layer) :=
  '(ls1, y_hat) <- Network.thread Layer_forward_pass ls X ;;
  _ <- Np.argmax y_hat ;;
  '(rls, _) <-
    Network.thread Layer_backward_pass (rev ls1) (Loss.gradient L y_hat y) ;;
  Some (rev rls).

(** [loop_layers] : the layers and the events after the training loop ran
    over [samples], the running counter having reached [k] before
    ([train_loop] without its bookkeeping). *)
Fixpoint loop_layers (L : Loss.t) (bs : Z) (k : nat)
         (samples : list (Np.ndarray1 * Np.ndarray1)) (ls : list Layer)
  : option (list Layer * list event) :=
  match samples with
  | [] => Some (ls, [])
  | (X, y) :: samples' =>
      ls1 <- sample_layers L ls X y ;;
      if (bs =? 0)%Z then None
      else if (Z.of_nat (S k) mod bs =? 0)%Z
      then ls2 <- Network.update_layers ls1 ;;
           '(ls3, tr) <- loop_layers L bs (S k) samples' ls2 ;;
           Some (ls3, EvSample :: EvUpdate :: tr)
      else '(ls3, tr) <- loop_layers L bs (S k) samples' ls1 ;;
           Some (ls3, EvSample :: tr)
  end.

(** The value of the loop variable [i] after [enumerate] ran from [i] over
    [n] items. *)
Definition last_index (i n : nat) (i_var : option nat) : option nat :=
  match n with
  | O => i_var
  | S n' => Some (i + n')%nat
  end.

(** [s'] has the hyperparameters and strategies of [s]. *)
Definition same_config (s s' : Network.t) : Prop :=
  Network.loss_function s' = Network.loss_function s /\
  Network.learning_rate s' = Network.learning_rate s /\
  Network.batch_size s' = Network.batch_size s /\
  Network.wreg s' = Network.wreg s /\
  Network.wrt s' = Network.wrt s.

(** [is_validating] of [fit]: both halves of the validation set are there. *)
Definition is_validating (X_val y_val : option (list Np.ndarray1)) : bool :=
  match X_val, y_val with
  | Some _, Some _ => true
  | _, _ => false
  end.

(** The epochs a history holds, in order. *)
Definition epochs_of (h : Network.history) : list nat := map fst h.

(** ** A Hidden layer under an arbitrary sequence of method calls *)

Inductive call : Type :=
| CallForward (X : Np.ndarray1)
| CallBackward (J_L_N : Np.ndarray1)
| CallUpdate.

Definition do_call (self : HiddenLayer.t) (c : call) : option HiddenLayer.t :=
  match c with
  | CallForward X =>
      '(self', _) <- HiddenLayer.forward_pass self X ;; Some self'
  | CallBackward J =>
      '(self', _) <- HiddenLayer.backward_pass self J ;; Some self'
  | CallUpdate => HiddenLayer.update_parameters self
  end.

Fixpoint do_calls (self : HiddenLayer.t) (cs : list call)
  : option HiddenLayer.t :=
  match cs with
  | [] => Some self
  | c :: cs' => self' <- do_call self c ;; do_calls self' cs'
  end.

(** The number of samples sent backward since the last update, after the
    calls [cs], when [p] were pending before them. *)
Fixpoint pending (p : nat) (cs : list call) : nat :=
  match cs with
  | [] => p
  | CallForward _ :: cs' => pending p cs'
  | CallBackward _ :: cs' => pending (S p) cs'
  | CallUpdate :: cs' => pending 0 cs'
  end.

(** ** The backward pass as the specification words it

    The local derivative is the diagonal matrix of the activation's
    derivative taken at [point], a vector the forward call left behind (the
    stored output, or the pre-activation); the downstream gradient is
    [upstream . (local_derivative_diag . W^T)]. *)
Definition claimed_downstream (self : HiddenLayer.t)
           (point upstream_gradient : Np.ndarray1) : option Np.ndarray1 :=
  let local_derivative_diag :=
    Np.diag (map (Activation.gradient (HiddenLayer._activation self)) point) in
  J <- Np.dot_mm local_derivative_diag (Np.transpose (HiddenLayer.W self)) ;;
  Np.dot_vm upstream_gradient J.

(** A Hidden layer with one input and one Relu neuron of weight [1] and
    bias [0]. *)
Definition relu_unit : HiddenLayer.t :=
  {| HiddenLayer.size := 1;
     HiddenLayer.W := {| Np.ncols := 1; Np.rows := [[1]] |};
     HiddenLayer.b := [0];
     HiddenLayer._learning_rate := 1 / 1000;
     HiddenLayer._activation := Activation.Relu;
     HiddenLayer.W_gradients := [];
     HiddenLayer.b_gradients := [];
     HiddenLayer.input := None;
     HiddenLayer.output := None |}.

(** [relu_unit] after [forward_pass] on the input [[1]]: the pre-activation
    and the stored output are both [[1]]. *)
Definition relu_unit_forwarded : HiddenLayer.t :=
  {| HiddenLayer.size := 1;
     HiddenLayer.W := {| Np.ncols := 1; Np.rows := [[1]] |};
     HiddenLayer.b := [0];
     HiddenLayer._learning_rate := 1 / 1000;
     HiddenLayer._activation := Activation.Relu;
     HiddenLayer.W_gradients := [];
     HiddenLayer.b_gradients := [];
     HiddenLayer.input := Some [1];
     HiddenLayer.output := Some [1] |}.

(** [relu_unit] with the gradients of two samples waiting in its buffers. *)
Definition relu_unit_pending : HiddenLayer.t :=
  {| HiddenLayer.size := 1;
     HiddenLayer.W := {| Np.ncols := 1; Np.rows := [[1]] |};
     HiddenLayer.b := [0];
     HiddenLayer._learning_rate := 1 / 1000;
     HiddenLayer._activation := Activation.Relu;
     HiddenLayer.W_gradients :=
       [ {| Np.ncols := 1; Np.rows := [[2]] |};
         {| Np.ncols := 1; Np.rows := [[3]] |} ];
     HiddenLayer.b_gradients := [[1]; [1]];
     HiddenLayer.input := Some [1];
     HiddenLayer.output := Some [1] |}.

(** ** The training run as the specification words it *)

Fixpoint traverse {A B : Type} (f : A -> option B) (l : list A)
  : option (list B) :=
  match l with
  | [] => Some []
  | x :: l' =>
      y <- f x ;;
      l'' <- traverse f l' ;;
      Some (y :: l'')
  end.

(** [update_parameters()] on a layer if it is a Hidden layer. *)
Definition update_if_hidden (l : Layer) : option Layer :=
  match l with
  | LHidden h => h' <- HiddenLayer.update_parameters h ;; Some (LHidden h')
  | _ => Some l
  end.

(** "Trigger [update_parameters()] on every Hidden layer." *)
Definition update_every_hidden (ls : list Layer) : option (list Layer) :=
  traverse update_if_hidden ls.

(** "Maintain a single running sample counter across the entire
    multi-epoch training run; whenever the counter mod [batch_size] is 0,
    trigger [update_parameters()] on every Hidden layer."  The run over
    [samples] from the layers [ls], [counter] samples having been processed
    before; the result is the layers and the values of the counter at which
    the Hidden layers were updated. *)
Fixpoint counted_run (L : Loss.t) (bs : Z) (counter : nat)
         (samples : list (Np.ndarray1 * Np.ndarray1)) (ls : list Layer)
  : option (list Layer * list nat) :=
  match samples with
  | [] => Some (ls, [])
  | (X, y) :: samples' =>
      ls1 <- sample_layers L ls X y ;;
      let counter' := S counter in
      if (bs =? 0)%Z then None
      else if (Z.of_nat counter' mod bs =? 0)%Z
      then ls2 <- update_every_hidden ls1 ;;
           '(ls3, updates) <- counted_run L bs counter' samples' ls2 ;;
           Some (ls3, counter' :: updates)
      else counted_run L bs counter' samples' ls1
  end.

(** The number of samples after the last batch boundary when [total]
    samples are processed in batches of [bs]: [total % bs]. *)
Definition trailing (bs : Z) (total : nat) : nat :=
  Z.to_nat (Z.of_nat total mod bs).

(** Both gradient buffers of a Hidden layer hold [p] entries. *)
Definition buffers_hold (p : nat) (l : Layer) : Prop :=
  match l with
  | LHidden h =>
      length (HiddenLayer.W_gradients h) = p /\
      length (HiddenLayer.b_gradients h) = p
  | _ => True
  end.

(** An accuracy: a history entry whose value lies between 0 and 1. *)
Definition is_fraction (e : nat * R) : Prop := 0 <= snd e <= 1.

(** The network with no regularization strategy configured. *)
Definition unregularized (self : Network.t) : Network.t :=
  {| Network.layers := Network.layers self;
     Network.loss_function := Network.loss_function self;
     Network.learning_rate := Network.learning_rate self;
     Network.batch_size := Network.batch_size self;
     Network.wreg := Network.wreg self;
     Network.wrt := None;
     Network.train_loss := Network.train_loss self;
     Network.val_loss := Network.val_loss self;
     Network.train_accuracy := Network.train_accuracy self;
     Network.val_accuracy := Network.val_accuracy self |}.

Definition unregularized_locals (st : Network.locals) : Network.locals :=
  {| Network.net := unregularized (Network.net st);
     Network.aggregated := Network.aggregated st;
     Network.num_correct := Network.num_correct st;
     Network.i_var := Network.i_var st;
     Network.trace := Network.trace st |}.

(** ** A small network to run the statements on *)

(** A squared-error loss, one instance of the loss strategy. *)
Definition squared_error : Loss.t :=
  {| Loss.call := fun y_hat y =>
       Np.sum (Np.zip_with (fun a c => (a - c) ^ 2) y_hat y);
     Loss.gradient := fun y_hat y =>
       map (fun i => 2 * (nth i y_hat 0 - nth i y 0)) (seq 0 (length y_hat)) |}.

(** Input(1), Hidden(1 -> 1, Relu), Softmax(1), with [batch_size = 4]. *)
Definition toy_network : Network.t :=
  {| Network.layers :=
       [LInput (InputLayer.mk 1); LHidden relu_unit;
        LSoftmax (SoftmaxLayer.mk 1 None None)];
     Network.loss_function := squared_error;
     Network.learning_rate := 1 / 1000;
     Network.batch_size := 4;
     Network.wreg := 1 / 100;
     Network.wrt := None;
     Network.train_loss := [];
     Network.val_loss := [];
     Network.train_accuracy := [];
     Network.val_accuracy := [] |}.

(** [n] copies of the sample [[1]], and of its label [[1]]. *)
Definition ones (n : nat) : list Np.ndarray1 := repeat [1] n.

(** A sum-of-squares penalty, one instance of the regularization
    strategy. *)
Definition sum_of_squares : Regularization.t :=
  {| Regularization.call := fun A =>
       Np.sum (map (fun r => Np.sum (map (fun w => w ^ 2) r)) (Np.rows A)) |}.

(** [toy_network] with the penalty configured and a coefficient of 0. *)
Definition toy_regularized : Network.t :=
  {| Network.layers := Network.layers toy_network;
     Network.loss_function := squared_error;
     Network.learning_rate := 1 / 1000;
     Network.batch_size := 4;
     Network.wreg := 0;
     Network.wrt := Some sum_of_squares;
     Network.train_loss := [];
     Network.val_loss := [];
     Network.train_accuracy := [];
     Network.val_accuracy := [] |}.

(** * Properties *)

(** ** Lists and arrays *)

Ltac inv H := inversion H; subst; clear H.

(** Splits a successful [bind] into its two steps. *)
Lemma bind_Some {A B : Type} (m : option A) (k : A -> option B) (r : B) :
  bind m k = Some r -> exists a, m = Some a /\ k a = Some r.
Proof.
  destruct m as [a|]; simpl; intros H; [exists a; auto | discriminate].
Qed.

Ltac unbind H :=
  let a := fresh "a" in
  let Ha := fresh "Ha" in
  apply bind_Some in H; destruct H as (a & Ha & H).

Lemma zip_with_length {A B C : Type} (f : A -> B -> C) (u : list A) (v : list B) :
  length (Np.zip_with f u v) = Nat.min (length u) (length v).
Proof.
  revert v; induction u as [|x u IH]; intros [|y v]; simpl; auto.
Qed.

Lemma nth_map_seq {A : Type} (f : nat -> A) (d : A) (n s i : nat) :
  (i < n)%nat -> nth i (map f (seq s n)) d = f (s + i)%nat.
Proof.
  revert s i; induction n as [|n IH]; intros s i Hi; [lia|].
  destruct i as [|i]; simpl.
  - now rewrite Nat.add_0_r.
  - rewrite IH by lia. f_equal; lia.
Qed.

(** A zip read index by index. *)
Lemma zip_with_seq {A B C : Type} (f : A -> B -> C) (da : A) (db : B)
      (u : list A) (v : list B) :
  Np.zip_with f u v =
  map (fun i => f (nth i u da) (nth i v db))
      (seq 0 (Nat.min (length u) (length v))).
Proof.
  revert v; induction u as [|x u IH]; intros [|y v]; simpl; auto.
  f_equal. rewrite IH, <- seq_shift, map_map. reflexivity.
Qed.

Lemma map_id_ext {A : Type} (f : A -> A) (l : list A) :
  (forall x, f x = x) -> map f l = l.
Proof.
  intros Hf; induction l as [|x l IH]; simpl; [auto | now rewrite Hf, IH].
Qed.

(** ** Softmax layer *)

(** The entry the two loops of [SoftmaxLayer.backward_pass] write at
    [(i, j)]. *)
Lemma jacobian_entry (out : Np.ndarray1) (i j : nat) :
  (i < length out)%nat -> (j < length out)%nat ->
  nth j (nth i (Np.rows (SoftmaxLayer.jacobian out)) []) 0 =
  nth i out 0 * ((if (i =? j)%nat then 1 else 0) - nth j out 0).
Proof.
  intros Hi Hj. unfold SoftmaxLayer.jacobian; simpl.
  rewrite (nth_map_seq _ [] _ 0 i Hi); simpl.
  rewrite (nth_map_seq _ 0 _ 0 j Hj); simpl.
  destruct (Nat.eqb_spec i j) as [->|_]; ring.
Qed.

(** C6. With a stored output of length [n] and an upstream gradient of
    length [n], [SoftmaxLayer.backward_pass] builds the Jacobian
    [J[i][j] = output[i] * (delta_ij - output[j])] and returns the product
    [upstream_gradient . J], a vector of length [n]. *)
Theorem softmax_backward_pass_jacobian :
  forall (self : SoftmaxLayer.t) (out J_L_S : Np.ndarray1),
    SoftmaxLayer.output self = Some out ->
    length J_L_S = length out ->
    exists J_L_N : Np.ndarray1,
      SoftmaxLayer.backward_pass self J_L_S = Some (self, J_L_N) /\
      Np.dot_vm J_L_S (SoftmaxLayer.jacobian out) = Some J_L_N /\
      length J_L_N = length out /\
      (forall i j, (i < length out)%nat -> (j < length out)%nat ->
         nth j (nth i (Np.rows (SoftmaxLayer.jacobian out)) []) 0 =
         nth i out 0 * ((if (i =? j)%nat then 1 else 0) - nth j out 0)) /\
      (forall j, (j < length out)%nat ->
         nth j J_L_N 0 =
         Np.sum (map (fun i => nth i J_L_S 0 *
                               (nth i out 0 *
                                ((if (i =? j)%nat then 1 else 0) - nth j out 0)))
                     (seq 0 (length out)))).
Proof.
  intros self out g Hout Hlen.
  assert (Hdot : Np.dot_vm g (SoftmaxLayer.jacobian out) =
                 Some (map (fun j => Np.inner g (Np.column j (SoftmaxLayer.jacobian out)))
                           (seq 0 (length out)))).
  { unfold Np.dot_vm, Np.nrows. simpl.
    rewrite length_map, length_seq, Hlen, Nat.eqb_refl. reflexivity. }
  eexists. split; [|split; [exact Hdot|]].
  - unfold SoftmaxLayer.backward_pass. rewrite Hout; simpl.
    rewrite Hdot; simpl. reflexivity.
  - split; [now rewrite length_map, length_seq|].
    split; [intros i j; apply jacobian_entry|].
    intros j Hj.
    rewrite (nth_map_seq _ 0 _ 0 j Hj); simpl.
    unfold Np.inner. f_equal.
    rewrite (zip_with_seq Rmult 0 0).
    unfold Np.column. rewrite length_map.
    change (length (Np.rows (SoftmaxLayer.jacobian out)))
      with (length (map (fun i => map (fun j0 =>
              if (i =? j0)%nat then nth i out 0 - nth i out 0 ^ 2
              else - nth i out 0 * nth j0 out 0) (seq 0 (length out)))
              (seq 0 (length out)))).
    rewrite length_map, length_seq, Hlen, Nat.min_id.
    apply map_ext_in. intros i Hi. apply in_seq in Hi.
    f_equal.
    rewrite (nth_indep _ 0 (nth j [] 0)) by
      (rewrite length_map; unfold SoftmaxLayer.jacobian; simpl;
       rewrite length_map, length_seq; lia).
    rewrite (map_nth (fun r => nth j r 0)).
    apply jacobian_entry; lia.
Qed.

Lemma softmax_backward_pass_jacobian_witness :
  exists J_L_N : Np.ndarray1,
    SoftmaxLayer.backward_pass (SoftmaxLayer.mk 2 None (Some [1/2; 1/2])) [1; 0]
      = Some (SoftmaxLayer.mk 2 None (Some [1/2; 1/2]), J_L_N) /\
    length J_L_N = 2%nat.
Proof.
  destruct (softmax_backward_pass_jacobian
              (SoftmaxLayer.mk 2 None (Some [1/2; 1/2])) [1/2; 1/2] [1; 0]
              eq_refl eq_refl) as (r & H1 & _ & H2 & _).
  exists r. split; [exact H1 | exact H2].
Defined.

(** ** Hidden layer: what each method changes *)

Lemma hidden_forward_frame (self self' : HiddenLayer.t) (X out : Np.ndarray1) :
  HiddenLayer.forward_pass self X = Some (self', out) ->
  HiddenLayer.size self' = HiddenLayer.size self /\
  HiddenLayer.W self' = HiddenLayer.W self /\
  HiddenLayer.b self' = HiddenLayer.b self /\
  HiddenLayer._learning_rate self' = HiddenLayer._learning_rate self /\
  HiddenLayer._activation self' = HiddenLayer._activation self /\
  HiddenLayer.W_gradients self' = HiddenLayer.W_gradients self /\
  HiddenLayer.b_gradients self' = HiddenLayer.b_gradients self /\
  HiddenLayer.input self' = Some X /\
  HiddenLayer.output self' = Some out.
Proof.
  unfold HiddenLayer.forward_pass. intros H.
  unbind H. unbind H. inv H. simpl. repeat split; reflexivity.
Qed.

Lemma hidden_backward_frame (self self' : HiddenLayer.t) (J d : Np.ndarray1) :
  HiddenLayer.backward_pass self J = Some (self', d) ->
  HiddenLayer.size self' = HiddenLayer.size self /\
  HiddenLayer.W self' = HiddenLayer.W self /\
  HiddenLayer.b self' = HiddenLayer.b self /\
  HiddenLayer._learning_rate self' = HiddenLayer._learning_rate self /\
  HiddenLayer._activation self' = HiddenLayer._activation self /\
  HiddenLayer.input self' = HiddenLayer.input self /\
  HiddenLayer.output self' = HiddenLayer.output self /\
  exists (G : Np.ndarray2) (v : Np.ndarray1),
    HiddenLayer.W_gradients self' = HiddenLayer.W_gradients self ++ [G] /\
    HiddenLayer.b_gradients self' = HiddenLayer.b_gradients self ++ [v].
Proof.
  unfold HiddenLayer.backward_pass. intros H.
  unbind H. unbind H. unbind H. unbind H. inv H. simpl.
  repeat split; try reflexivity. eauto.
Qed.

Lemma hidden_update_frame (self self' : HiddenLayer.t) :
  HiddenLayer.update_parameters self = Some self' ->
  HiddenLayer.size self' = HiddenLayer.size self /\
  HiddenLayer._learning_rate self' = HiddenLayer._learning_rate self /\
  HiddenLayer._activation self' = HiddenLayer._activation self /\
  HiddenLayer.input self' = HiddenLayer.input self /\
  HiddenLayer.output self' = HiddenLayer.output self /\
  HiddenLayer.W_gradients self' = [] /\
  HiddenLayer.b_gradients self' = [].
Proof.
  unfold HiddenLayer.update_parameters. intros H.
  unbind H. unbind H. unbind H. unbind H. inv H. simpl.
  repeat split; reflexivity.
Qed.

(** C7. With both gradient buffers empty [update_parameters] returns, and
    leaves [W] and [b] as they were. *)
Theorem update_parameters_empty_buffers :
  forall self : HiddenLayer.t,
    HiddenLayer.W_gradients self = [] ->
    HiddenLayer.b_gradients self = [] ->
    exists self' : HiddenLayer.t,
      HiddenLayer.update_parameters self = Some self' /\
      HiddenLayer.W self' = HiddenLayer.W self /\
      HiddenLayer.b self' = HiddenLayer.b self.
Proof.
  intros self HW Hb.
  unfold HiddenLayer.update_parameters. rewrite HW, Hb. simpl.
  eexists. split; [reflexivity|]. simpl. split.
  - destruct (HiddenLayer.W self) as [m rs]; simpl. f_equal.
    apply map_id_ext; intros r. apply map_id_ext; intros w. ring.
  - apply map_id_ext; intros w. ring.
Qed.

Lemma update_parameters_empty_buffers_witness :
  exists self' : HiddenLayer.t,
    HiddenLayer.update_parameters relu_unit = Some self' /\
    HiddenLayer.W self' = HiddenLayer.W relu_unit /\
    HiddenLayer.b self' = HiddenLayer.b relu_unit.
Proof.
  apply (update_parameters_empty_buffers relu_unit); reflexivity.
Defined.

(** C8. Every [backward_pass] appends one entry to each gradient buffer,
    [update_parameters] empties both, [forward_pass] touches neither; so
    after any sequence of calls on a Hidden layer whose buffers held [p]
    entries each, both buffers hold as many entries as samples were sent
    backward since the last update. *)
Theorem gradient_buffers_count_pending :
  forall (self self' : HiddenLayer.t) (cs : list call),
    length (HiddenLayer.W_gradients self) = length (HiddenLayer.b_gradients self) ->
    do_calls self cs = Some self' ->
    length (HiddenLayer.W_gradients self')
      = pending (length (HiddenLayer.W_gradients self)) cs /\
    length (HiddenLayer.b_gradients self')
      = pending (length (HiddenLayer.W_gradients self)) cs.
Proof.
  intros self self' cs; revert self.
  induction cs as [|c cs IH]; intros self Heq Hrun; simpl in Hrun.
  - inv Hrun. simpl. auto.
  - unbind Hrun. rename a into s1.
    destruct c as [X|J|]; simpl in Ha; simpl.
    + unbind Ha. destruct a as [s d]. inv Ha.
      apply hidden_forward_frame in Ha0.
      destruct Ha0 as (_ & _ & _ & _ & _ & HW & Hb & _).
      rewrite <- HW. apply IH; [congruence | exact Hrun].
    + unbind Ha. destruct a as [s d]. inv Ha.
      apply hidden_backward_frame in Ha0.
      destruct Ha0 as (_ & _ & _ & _ & _ & _ & _ & G & v & HW & Hb).
      replace (S (length (HiddenLayer.W_gradients self)))
        with (length (HiddenLayer.W_gradients s1))
        by (rewrite HW, length_app; simpl; lia).
      apply IH; [|exact Hrun].
      rewrite HW, Hb, !length_app; simpl; lia.
    + apply hidden_update_frame in Ha.
      destruct Ha as (_ & _ & _ & _ & _ & HW & Hb).
      replace 0%nat with (length (HiddenLayer.W_gradients s1))
        by (rewrite HW; reflexivity).
      apply IH; [|exact Hrun]. rewrite HW, Hb; reflexivity.
Qed.

(** The derivative inside [HiddenLayer.backward_pass] is taken at the
    upstream gradient: the stored output is never read. *)
Lemma hidden_backward_pass_output_unread
      (n : nat) (W : Np.ndarray2) (b : Np.ndarray1) (lr : R) (a : Activation.t)
      (Wg : list Np.ndarray2) (bg : list Np.ndarray1)
      (x o1 o2 : option Np.ndarray1) (J : Np.ndarray1) :
  option_map snd (HiddenLayer.backward_pass (HiddenLayer.mk n W b lr a Wg bg x o1) J)
  = option_map snd (HiddenLayer.backward_pass (HiddenLayer.mk n W b lr a Wg bg x o2) J).
Proof.
  unfold HiddenLayer.backward_pass; simpl.
  destruct (Np.dot_mm _ _); simpl; [|reflexivity].
  destruct x; simpl; [|reflexivity].
  destruct (Np.mul_rows _ _); simpl; [|reflexivity].
  destruct (Np.dot_vm _ _); reflexivity.
Qed.

(** C1 (the code departs from it). On the one-neuron Relu layer, after the
    forward call on [[1]] (pre-activation and stored output [[1]], where the
    Relu derivative is [1]), [backward_pass] on the upstream gradient [[-1]]
    returns [[0]]: it takes the derivative at the upstream gradient.  The
    formula of the specification, with the derivative taken at the stored
    output, gives [[-1]]. *)
Theorem hidden_backward_pass_derivative_point :
  HiddenLayer.forward_pass relu_unit [1] = Some (relu_unit_forwarded, [1]) /\
  (exists self' : HiddenLayer.t,
      HiddenLayer.backward_pass relu_unit_forwarded [-1] = Some (self', [0])) /\
  claimed_downstream relu_unit_forwarded [1] [-1] = Some [-1].
Proof.
  assert (Hrelu : Rmax (1 * 1 + 0 + 0) 0 = 1).
  { unfold Rmax. destruct (Rle_dec (1 * 1 + 0 + 0) 0); lra. }
  split; [|split].
  - unfold HiddenLayer.forward_pass, relu_unit, relu_unit_forwarded,
      Np.dot_vm, Np.add, Np.inner, Np.column, Np.sum, Np.nrows; simpl.
    rewrite Hrelu. reflexivity.
  - unfold HiddenLayer.backward_pass, relu_unit_forwarded,
      Np.dot_mm, Np.dot_vm, Np.mul_rows, Np.transpose, Np.map2d, Np.diag,
      Np.diagonal, Np.outer, Np.inner, Np.column, Np.sum, Np.nrows; simpl.
    destruct (Rlt_dec 0 (-1)) as [Hlt|_]; [lra|].
    eexists. do 2 f_equal. f_equal. ring.
  - unfold claimed_downstream, relu_unit_forwarded,
      Np.dot_mm, Np.dot_vm, Np.transpose, Np.diag,
      Np.inner, Np.column, Np.sum, Np.nrows; simpl.
    destruct (Rlt_dec 0 1) as [_|Hn]; [|lra].
    do 2 f_equal. ring.
Qed.

(** ** Elementwise arithmetic on arrays *)

Lemma nth_zip_with {A B C : Type} (f : A -> B -> C) (da : A) (db : B) (dc : C)
      (u : list A) (v : list B) (i : nat) :
  (i < length u)%nat -> (i < length v)%nat ->
  nth i (Np.zip_with f u v) dc = f (nth i u da) (nth i v db).
Proof.
  revert v i; induction u as [|x u IH]; intros [|y v] [|i]; simpl; intros; try lia; auto.
  apply IH; lia.
Qed.

Lemma nth_map_in {A B : Type} (f : A -> B) (l : list A) (d : A) (d' : B) (i : nat) :
  (i < length l)%nat -> nth i (map f l) d' = f (nth i l d).
Proof.
  intros Hi. rewrite (nth_indep _ d' (f d)) by (rewrite length_map; lia).
  apply map_nth.
Qed.

Lemma shape_row (n m : nat) (A : Np.ndarray2) (i : nat) :
  shape_is n m A -> (i < n)%nat -> length (nth i (Np.rows A) []) = m.
Proof.
  intros (Hn & Hm & Hwf) Hi. unfold Np.well_formed in Hwf.
  rewrite Forall_forall in Hwf. rewrite <- Hm. apply Hwf, nth_In.
  unfold Np.nrows in Hn. lia.
Qed.

Lemma shape_same (n m : nat) (A B : Np.ndarray2) :
  shape_is n m A -> shape_is n m B -> Np.same_shape A B = true.
Proof.
  intros (Hn & Hm & _) (Hn' & Hm' & _). unfold Np.same_shape.
  rewrite Hn, Hn', Hm, Hm', !Nat.eqb_refl. reflexivity.
Qed.

Lemma same_shape_is (n m : nat) (A B : Np.ndarray2) :
  shape_is n m A -> Np.well_formed B -> Np.same_shape A B = true -> shape_is n m B.
Proof.
  intros (Hn & Hm & _) Hwf H. unfold Np.same_shape in H.
  apply andb_true_iff in H. destruct H as [H1 H2].
  apply Nat.eqb_eq in H1, H2. repeat split; [congruence | congruence | exact Hwf].
Qed.

(** Two arrays of one shape combined entry by entry. *)
Lemma zip2_shape (f : R -> R -> R) (n m : nat) (A B : Np.ndarray2) :
  shape_is n m A -> shape_is n m B ->
  shape_is n m {| Np.ncols := m;
                  Np.rows := Np.zip_with (Np.zip_with f) (Np.rows A) (Np.rows B) |}.
Proof.
  intros HA HB. pose proof HA as (Hn & Hm & _). pose proof HB as (Hn' & Hm' & _).
  unfold Np.nrows in *.
  assert (Hlen : length (Np.zip_with (Np.zip_with f) (Np.rows A) (Np.rows B)) = n)
    by (rewrite zip_with_length; lia).
  repeat split; simpl; auto.
  unfold Np.well_formed; simpl. apply Forall_forall. intros r Hr.
  destruct (In_nth _ _ [] Hr) as (i & Hi & <-).
  rewrite (nth_zip_with _ [] [] []) by lia.
  rewrite zip_with_length, (shape_row n m A i HA), (shape_row n m B i HB) by lia.
  lia.
Qed.

Lemma zip2_entry (f : R -> R -> R) (n m k : nat) (A B : Np.ndarray2) (i j : nat) :
  shape_is n m A -> shape_is n m B -> (i < n)%nat -> (j < m)%nat ->
  entry {| Np.ncols := k;
           Np.rows := Np.zip_with (Np.zip_with f) (Np.rows A) (Np.rows B) |} i j
  = f (entry A i j) (entry B i j).
Proof.
  intros HA HB Hi Hj. pose proof HA as (Hn & _). pose proof HB as (Hn' & _).
  unfold Np.nrows in *. unfold entry; simpl.
  rewrite (nth_zip_with _ [] [] []) by lia.
  apply nth_zip_with.
  - rewrite (shape_row n m A i HA); lia.
  - rewrite (shape_row n m B i HB); lia.
Qed.

Lemma add2_shape (n m : nat) (A B : Np.ndarray2) :
  shape_is n m A -> shape_is n m B -> shape_is n m (Np.add2 A B).
Proof.
  intros HA HB. unfold Np.add2.
  replace (Np.ncols A) with m by (symmetry; apply HA).
  now apply zip2_shape.
Qed.

(** The running total [np.sum(..., axis=0)] keeps over 2-D arrays. *)
Lemma fold_add2 (n m : nat) (l : list Np.ndarray2) (g : Np.ndarray2) :
  shape_is n m g -> Forall (shape_is n m) l ->
  shape_is n m (fold_left Np.add2 l g) /\
  forall i j, (i < n)%nat -> (j < m)%nat ->
    entry (fold_left Np.add2 l g) i j
    = entry g i j + Np.sum (map (fun G => entry G i j) l).
Proof.
  revert g; induction l as [|h l IH]; intros g Hg Hl; simpl.
  - split; [exact Hg|]. intros; unfold Np.sum; simpl; ring.
  - apply Forall_cons_iff in Hl; destruct Hl as [H1 H2]. destruct (IH (Np.add2 g h) (add2_shape n m g h Hg H1) H2) as [Hs He].
    split; [exact Hs|]. intros i j Hi Hj. rewrite He by assumption.
    unfold Np.add2 at 1. rewrite (zip2_entry Rplus n m) by assumption.
    unfold Np.sum; simpl; ring.
Qed.

(** The same for 1-D arrays. *)
Lemma fold_add1 (m : nat) (l : list Np.ndarray1) (g : Np.ndarray1) :
  length g = m -> Forall (fun v => length v = m) l ->
  length (fold_left (Np.zip_with Rplus) l g) = m /\
  forall j, (j < m)%nat ->
    nth j (fold_left (Np.zip_with Rplus) l g) 0
    = nth j g 0 + Np.sum (map (fun v => nth j v 0) l).
Proof.
  revert g; induction l as [|h l IH]; intros g Hg Hl; simpl.
  - split; [exact Hg|]. intros; unfold Np.sum; simpl; ring.
  - apply Forall_cons_iff in Hl; destruct Hl as [H1 H2].
    assert (Hz : length (Np.zip_with Rplus g h) = m)
      by (rewrite zip_with_length; lia).
    destruct (IH (Np.zip_with Rplus g h) Hz H2) as [Hs He].
    split; [exact Hs|]. intros j Hj. rewrite He by assumption.
    rewrite (nth_zip_with Rplus 0 0 0) by lia.
    unfold Np.sum; simpl; ring.
Qed.

Lemma forallb_same_shape (n m : nat) (g : Np.ndarray2) (l : list Np.ndarray2) :
  shape_is n m g -> Forall (shape_is n m) l -> forallb (Np.same_shape g) l = true.
Proof.
  intros Hg Hl. apply forallb_forall. intros h Hh.
  rewrite Forall_forall in Hl. eapply shape_same; eauto.
Qed.

Lemma forallb_same_length (m : nat) (g : Np.ndarray1) (l : list Np.ndarray1) :
  length g = m -> Forall (fun v => length v = m) l ->
  forallb (fun h => (length h =? length g)%nat) l = true.
Proof.
  intros Hg Hl. apply forallb_forall. intros h Hh.
  rewrite Forall_forall in Hl. apply Nat.eqb_eq. rewrite (Hl h Hh). auto.
Qed.

(** [W -= lr * np.sum(gradients, axis=0)], entry by entry. *)
Lemma isub_sum_2 (n m : nat) (A : Np.ndarray2) (lr : R) (l : list Np.ndarray2) :
  shape_is n m A -> Forall (shape_is n m) l ->
  exists (s : Np.reduced Np.ndarray2) (A' : Np.ndarray2),
    Np.sum_axis0_2 l = Some s /\
    Np.isub_scaled_2 A lr s = Some A' /\
    shape_is n m A' /\
    forall i j, (i < n)%nat -> (j < m)%nat ->
      entry A' i j = entry A i j - lr * Np.sum (map (fun G => entry G i j) l).
Proof.
  intros HA Hl. pose proof HA as (Hn & Hm & Hwf).
  destruct l as [|g l]; simpl.
  - do 2 eexists. split; [reflexivity|]. split; [reflexivity|]. split.
    + repeat split; simpl; auto.
      * unfold Np.nrows in *; simpl. now rewrite length_map.
      * unfold Np.well_formed in *; simpl. apply Forall_map.
        eapply Forall_impl; [|exact Hwf]. simpl. intros r Hr. now rewrite length_map.
    + intros i j Hi Hj. unfold entry; simpl.
      rewrite (nth_map_in _ _ []) by (unfold Np.nrows in Hn; lia).
      rewrite (nth_map_in _ _ 0) by (rewrite (shape_row n m A i HA); lia).
      unfold Np.sum; simpl. reflexivity.
  - apply Forall_cons_iff in Hl; destruct Hl as [H1 H2]. rewrite (forallb_same_shape n m g l H1 H2).
    destruct (fold_add2 n m l g H1 H2) as [Hs He].
    do 2 eexists. split; [reflexivity|]. simpl.
    rewrite (shape_same n m _ A Hs HA). split; [reflexivity|]. split.
    + rewrite Hm. now apply zip2_shape.
    + intros i j Hi Hj.
      rewrite (zip2_entry (fun w d => w - lr * d) n m) by assumption.
      rewrite He by assumption. unfold Np.sum; simpl. reflexivity.
Qed.

Lemma isub_sum_1 (m : nat) (a : Np.ndarray1) (lr : R) (l : list Np.ndarray1) :
  length a = m -> Forall (fun v => length v = m) l ->
  exists (s : Np.reduced Np.ndarray1) (a' : Np.ndarray1),
    Np.sum_axis0_1 l = Some s /\
    Np.isub_scaled_1 a lr s = Some a' /\
    length a' = m /\
    forall j, (j < m)%nat ->
      nth j a' 0 = nth j a 0 - lr * Np.sum (map (fun v => nth j v 0) l).
Proof.
  intros Ha Hl. destruct l as [|g l]; simpl.
  - do 2 eexists. split; [reflexivity|]. split; [reflexivity|].
    split; [now rewrite length_map|].
    intros j Hj.
    rewrite (nth_map_in _ _ 0) by lia.
    unfold Np.sum; simpl. reflexivity.
  - apply Forall_cons_iff in Hl; destruct Hl as [H1 H2]. rewrite (forallb_same_length m g l H1 H2).
    destruct (fold_add1 m l g H1 H2) as [Hs He].
    do 2 eexists. split; [reflexivity|]. simpl.
    rewrite Hs, Ha, Nat.eqb_refl. split; [reflexivity|].
    split; [rewrite zip_with_length; lia|].
    intros j Hj.
    rewrite (nth_zip_with (fun w d => w - lr * d) 0 0 0) by lia.
    rewrite He by lia. unfold Np.sum; simpl. reflexivity.
Qed.

(** ** Hidden layer: the parameter update *)

Lemma hidden_update_total (n : nat) (self : HiddenLayer.t) :
  hidden_ok n self ->
  exists self' : HiddenLayer.t,
    HiddenLayer.update_parameters self = Some self' /\
    hidden_ok n self' /\
    (forall i j, (i < n)%nat -> (j < HiddenLayer.size self)%nat ->
       entry (HiddenLayer.W self') i j
       = entry (HiddenLayer.W self) i j
         - HiddenLayer._learning_rate self
           * Np.sum (map (fun G => entry G i j) (HiddenLayer.W_gradients self))) /\
    (forall j, (j < HiddenLayer.size self)%nat ->
       nth j (HiddenLayer.b self') 0
       = nth j (HiddenLayer.b self) 0
         - HiddenLayer._learning_rate self
           * Np.sum (map (fun v => nth j v 0) (HiddenLayer.b_gradients self))).
Proof.
  intros (HW & Hb & HWg & Hbg).
  destruct (isub_sum_2 n _ _ (HiddenLayer._learning_rate self) _ HW HWg)
    as (sW & W' & E1 & E2 & HW' & HeW).
  destruct (isub_sum_1 _ _ (HiddenLayer._learning_rate self) _ Hb Hbg)
    as (sb & b' & E3 & E4 & Hb' & Heb).
  unfold HiddenLayer.update_parameters.
  rewrite E1; simpl. rewrite E2; simpl. rewrite E3; simpl. rewrite E4; simpl.
  eexists. split; [reflexivity|]. simpl. split; [|split; assumption].
  repeat split; simpl; auto; apply HW'.
Qed.

(** C3. [update_parameters] sets [W] to [W - learning_rate * sum(W_gradients)]
    and [b] to [b - learning_rate * sum(b_gradients)], entry by entry, and
    leaves both buffers empty whatever they held; [forward_pass] and
    [backward_pass] leave [W] and [b] as they were. *)
Theorem update_parameters_only_writer :
  forall (n : nat) (self : HiddenLayer.t),
    hidden_ok n self ->
    (exists self' : HiddenLayer.t,
       HiddenLayer.update_parameters self = Some self' /\
       shape_is n (HiddenLayer.size self) (HiddenLayer.W self') /\
       length (HiddenLayer.b self') = HiddenLayer.size self /\
       (forall i j, (i < n)%nat -> (j < HiddenLayer.size self)%nat ->
          entry (HiddenLayer.W self') i j
          = entry (HiddenLayer.W self) i j
            - HiddenLayer._learning_rate self
              * Np.sum (map (fun G => entry G i j) (HiddenLayer.W_gradients self))) /\
       (forall j, (j < HiddenLayer.size self)%nat ->
          nth j (HiddenLayer.b self') 0
          = nth j (HiddenLayer.b self) 0
            - HiddenLayer._learning_rate self
              * Np.sum (map (fun v => nth j v 0) (HiddenLayer.b_gradients self))) /\
       HiddenLayer.W_gradients self' = [] /\
       HiddenLayer.b_gradients self' = []) /\
    (forall (X : Np.ndarray1) (r : HiddenLayer.t * Np.ndarray1),
       HiddenLayer.forward_pass self X = Some r ->
       HiddenLayer.W (fst r) = HiddenLayer.W self /\
       HiddenLayer.b (fst r) = HiddenLayer.b self) /\
    (forall (J : Np.ndarray1) (r : HiddenLayer.t * Np.ndarray1),
       HiddenLayer.backward_pass self J = Some r ->
       HiddenLayer.W (fst r) = HiddenLayer.W self /\
       HiddenLayer.b (fst r) = HiddenLayer.b self).
Proof.
  intros n self Hok. split; [|split].
  - destruct (hidden_update_total n self Hok) as (self' & E & Hok' & HeW & Heb).
    pose proof (hidden_update_frame _ _ E) as (Hsz & _ & _ & _ & _ & HWg & Hbg).
    destruct Hok' as (HW' & Hb' & _). rewrite Hsz in HW', Hb'.
    exists self'. repeat split; auto; apply HW'.
  - intros X [s out] E. apply hidden_forward_frame in E. simpl. split; apply E.
  - intros J [s d] E. apply hidden_backward_frame in E. simpl. split; apply E.
Qed.

Lemma relu_unit_pending_ok : hidden_ok 1 relu_unit_pending.
Proof.
  unfold hidden_ok, shape_is, Np.well_formed, Np.nrows; simpl.
  repeat split; repeat constructor.
Qed.

Lemma update_parameters_only_writer_witness :
  exists self' : HiddenLayer.t,
    HiddenLayer.update_parameters relu_unit_pending = Some self' /\
    entry (HiddenLayer.W self') 0 0 = 1 - 1 / 1000 * (2 + (3 + 0)) /\
    HiddenLayer.W_gradients self' = [] /\
    HiddenLayer.b_gradients self' = [].
Proof.
  destruct (update_parameters_only_writer 1 relu_unit_pending relu_unit_pending_ok)
    as ((self' & E & _ & _ & HW & _ & HWg & Hbg) & _).
  exists self'. split; [exact E|]. split; [|split; assumption].
  apply (HW 0%nat 0%nat); simpl; lia.
Defined.

Lemma gradient_buffers_count_pending_witness :
  exists self' : HiddenLayer.t,
    do_calls relu_unit
      [CallForward [1]; CallBackward [-1]; CallUpdate;
       CallForward [1]; CallBackward [1]; CallBackward [2]] = Some self' /\
    length (HiddenLayer.W_gradients self') = 2%nat /\
    length (HiddenLayer.b_gradients self') = 2%nat.
Proof.
  eexists. split; [reflexivity|].
  apply (gradient_buffers_count_pending relu_unit _
           [CallForward [1]; CallBackward [-1]; CallUpdate;
            CallForward [1]; CallBackward [1]; CallBackward [2]]);
    reflexivity.
Defined.

(** ** Layers on tensors of the right width *)

Lemma hidden_forward_total (n : nat) (self : HiddenLayer.t) (X : Np.ndarray1) :
  hidden_ok n self -> length X = n ->
  exists (self' : HiddenLayer.t) (out : Np.ndarray1),
    HiddenLayer.forward_pass self X = Some (self', out) /\
    length out = HiddenLayer.size self /\
    HiddenLayer.size self' = HiddenLayer.size self /\
    hidden_ok n self' /\
    HiddenLayer.input self' = Some X.
Proof.
  intros (HW & Hb & HWg & Hbg) HX. pose proof HW as (Hn & Hm & _).
  unfold HiddenLayer.forward_pass, Np.dot_vm, Np.add.
  rewrite HX, Hn, Nat.eqb_refl; simpl.
  rewrite length_map, length_seq, Hm, Hb, Nat.eqb_refl; simpl.
  do 2 eexists. split; [reflexivity|]. simpl.
  split.
  - rewrite length_map, zip_with_length, length_map, length_seq, Hb. lia.
  - repeat split; auto; apply HW.
Qed.

Lemma diag_gradient_shape (f : R -> R) (g : Np.ndarray1) :
  Np.nrows (Np.map2d f (Np.diag g)) = length g /\
  Np.ncols (Np.map2d f (Np.diag g)) = length g /\
  length (Np.diagonal (Np.map2d f (Np.diag g))) = length g.
Proof.
  unfold Np.diagonal, Np.nrows, Np.map2d, Np.diag; simpl.
  rewrite !length_map, !length_seq, Nat.min_id. auto.
Qed.

Lemma hidden_backward_total (n : nat) (self : HiddenLayer.t) (x J : Np.ndarray1) :
  hidden_ok n self ->
  HiddenLayer.input self = Some x -> length x = n ->
  length J = HiddenLayer.size self ->
  exists (self' : HiddenLayer.t) (J' : Np.ndarray1),
    HiddenLayer.backward_pass self J = Some (self', J') /\
    length J' = n /\
    HiddenLayer.size self' = HiddenLayer.size self /\
    hidden_ok n self'.
Proof.
  intros (HW & Hb & HWg & Hbg) Hin Hx HJ. pose proof HW as (Hn & Hm & _).
  destruct (diag_gradient_shape
              (Activation.gradient (HiddenLayer._activation self)) J)
    as (Hr & Hc & Hd).
  unfold HiddenLayer.backward_pass, Np.dot_mm.
  rewrite Hc. unfold Np.nrows at 1. simpl.
  rewrite length_map, length_seq, Hm, HJ, Nat.eqb_refl; simpl.
  rewrite Hin; simpl.
  unfold Np.mul_rows; simpl. rewrite Hd, HJ, Nat.eqb_refl; simpl.
  unfold Np.dot_vm, Np.nrows; simpl.
  rewrite !length_map, length_seq, HJ, Nat.eqb_refl; simpl.
  do 2 eexists. split; [reflexivity|]. simpl.
  split; [rewrite length_map, length_seq; exact Hn|].
  split; [reflexivity|].
  unfold hidden_ok; simpl. repeat split; auto; try apply HW.
  - apply Forall_app; split; [exact HWg|]. constructor; [|constructor].
    unfold shape_is, Np.nrows, Np.well_formed; simpl.
    rewrite !length_map. repeat split; auto.
    apply Forall_map, Forall_map, Forall_forall. intros xi _.
    rewrite zip_with_length, length_map, Hd. lia.
  - apply Forall_app; split; [exact Hbg|]. constructor; [|constructor].
    rewrite Hd. exact HJ.
Qed.

Lemma softmax_forward_total (self : SoftmaxLayer.t) (X : Np.ndarray1) :
  length X <> 0%nat ->
  exists (self' : SoftmaxLayer.t) (out : Np.ndarray1),
    SoftmaxLayer.forward_pass self X = Some (self', out) /\
    length out = length X /\
    SoftmaxLayer.output self' = Some out.
Proof.
  intros HX. destruct X as [|x X]; [simpl in HX; lia|].
  unfold SoftmaxLayer.forward_pass; simpl.
  do 2 eexists. split; [reflexivity|]. simpl.
  split; [now rewrite !length_map | reflexivity].
Qed.

Lemma softmax_backward_total (self : SoftmaxLayer.t) (out J : Np.ndarray1) :
  SoftmaxLayer.output self = Some out -> length J = length out ->
  exists J' : Np.ndarray1,
    SoftmaxLayer.backward_pass self J = Some (self, J') /\
    length J' = length out.
Proof.
  intros Hout HJ. unfold SoftmaxLayer.backward_pass. rewrite Hout; simpl.
  unfold Np.dot_vm, Np.nrows; simpl.
  rewrite length_map, length_seq, HJ, Nat.eqb_refl; simpl.
  eexists. split; [reflexivity|]. now rewrite length_map, length_seq.
Qed.

(** ** The passes through the whole network *)

Lemma thread_app (f : Layer -> Np.ndarray1 -> option (Layer * Np.ndarray1))
      (l1 l2 : list Layer) (x : Np.ndarray1) :
  Network.thread f (l1 ++ l2) x =
  ('(l1', x1) <- Network.thread f l1 x ;;
   '(l2', x2) <- Network.thread f l2 x1 ;;
   Some (l1' ++ l2', x2)).
Proof.
  revert x; induction l1 as [|l l1 IH]; intros x; simpl.
  - destruct (Network.thread f l2 x) as [[l2' x2]|]; reflexivity.
  - destruct (f l x) as [[l' x']|]; simpl; [|reflexivity].
    rewrite IH. destruct (Network.thread f l1 x') as [[l1' x1]|]; simpl; [|reflexivity].
    destruct (Network.thread f l2 x1) as [[l2' x2]|]; reflexivity.
Qed.

(** A relation every call of the method establishes holds layer by layer
    after the pass. *)
Lemma thread_Forall2 (f : Layer -> Np.ndarray1 -> option (Layer * Np.ndarray1))
      (P : Layer -> Layer -> Prop) :
  (forall l x l' x', f l x = Some (l', x') -> P l l') ->
  forall ls x ls' x',
    Network.thread f ls x = Some (ls', x') -> Forall2 P ls ls'.
Proof.
  intros HP. induction ls as [|l ls IH]; intros x ls' x' H; simpl in H.
  - inv H. constructor.
  - unbind H. destruct a as [l1 x1]. unbind H. destruct a as [ls1 x2]. inv H.
    constructor; eauto.
Qed.

Lemma forward_total (ls : list Layer) :
  forall (d d' : nat) (X : Np.ndarray1),
    chain d ls d' -> length X = d ->
    exists (ls' : list Layer) (out : Np.ndarray1),
      Network.thread Layer_forward_pass ls X = Some (ls', out) /\
      length out = d' /\ primed d ls' d'.
Proof.
  induction ls as [|l ls IH]; intros d d' X Hc HX; simpl in Hc.
  - exists [], X. simpl. repeat split; congruence.
  - destruct l as [i|h|s].
    + destruct (IH d d' X Hc HX) as (ls' & out & E & Hout & Hp).
      exists (LInput i :: ls'), out. simpl. rewrite E. simpl. auto.
    + destruct Hc as [Hh Hc].
      destruct (hidden_forward_total d h X Hh HX) as (h' & o & E & Ho & Hsz & Hh' & Hin).
      destruct (IH _ d' o Hc Ho) as (ls' & out & E' & Hout & Hp).
      exists (LHidden h' :: ls'), out. simpl. rewrite E. simpl. rewrite E'. simpl.
      split; [reflexivity|]. split; [exact Hout|]. split; [exact Hh'|].
      split; [exists X; auto|]. rewrite Hsz; exact Hp.
    + destruct Hc as [Hd Hc].
      destruct (softmax_forward_total s X) as (s' & o & E & Ho & Hst); [lia|].
      destruct (IH d d' o Hc) as (ls' & out & E' & Hout & Hp); [lia|].
      exists (LSoftmax s' :: ls'), out. simpl. rewrite E. simpl. rewrite E'. simpl.
      split; [reflexivity|]. split; [exact Hout|]. split; [exact Hd|].
      split; [exists o; split; [auto | lia]|]. exact Hp.
Qed.

Lemma backward_total (ls : list Layer) :
  forall (d d' : nat) (J : Np.ndarray1),
    primed d ls d' -> length J = d' ->
    exists (rls : list Layer) (J' : Np.ndarray1),
      Network.thread Layer_backward_pass (rev ls) J = Some (rls, J') /\
      length J' = d /\ chain d (rev rls) d'.
Proof.
  induction ls as [|l ls IH]; intros d d' J Hp HJ; simpl in Hp.
  - exists [], J. simpl. repeat split; congruence.
  - simpl rev. rewrite thread_app.
    destruct l as [i|h|s].
    + destruct (IH d d' J Hp HJ) as (rls & J1 & E & HJ1 & Hc).
      rewrite E; simpl. exists (rls ++ [LInput i]), J1.
      rewrite rev_app_distr; simpl. auto.
    + destruct Hp as (Hh & (x & Hin & Hx) & Hp).
      destruct (IH _ d' J Hp HJ) as (rls & J1 & E & HJ1 & Hc).
      destruct (hidden_backward_total d h x J1 Hh Hin Hx HJ1)
        as (h' & J2 & E' & HJ2 & Hsz & Hh').
      rewrite E; simpl. rewrite E'; simpl.
      exists (rls ++ [LHidden h']), J2.
      rewrite rev_app_distr; simpl. rewrite Hsz. auto.
    + destruct Hp as (Hd & (o & Hout & Ho) & Hp).
      destruct (IH d d' J Hp HJ) as (rls & J1 & E & HJ1 & Hc).
      destruct (softmax_backward_total s o J1 Hout) as (J2 & E' & HJ2); [lia|].
      rewrite E; simpl. rewrite E'; simpl.
      exists (rls ++ [LSoftmax s]), J2.
      rewrite rev_app_distr; simpl. repeat split; auto. lia.
Qed.

Lemma update_total (ls : list Layer) :
  forall d d' : nat,
    chain d ls d' ->
    exists ls' : list Layer,
      Network.update_layers ls = Some ls' /\ chain d ls' d'.
Proof.
  induction ls as [|l ls IH]; intros d d' Hc; simpl in Hc.
  - exists []. simpl. auto.
  - destruct l as [i|h|s].
    + destruct (IH d d' Hc) as (ls' & E & Hc'). exists (LInput i :: ls').
      simpl. rewrite E. simpl. auto.
    + destruct Hc as [Hh Hc].
      destruct (hidden_update_total d h Hh) as (h' & E & Hh' & _).
      pose proof (hidden_update_frame _ _ E) as (Hsz & _).
      destruct (IH _ d' Hc) as (ls' & E' & Hc'). exists (LHidden h' :: ls').
      simpl. rewrite E. simpl. rewrite E'. simpl. rewrite Hsz. auto.
    + destruct Hc as [Hd Hc].
      destruct (IH d d' Hc) as (ls' & E & Hc'). exists (LSoftmax s :: ls').
      simpl. rewrite E. simpl. auto.
Qed.

(** ** The training loop, seen from the layers *)

Lemma with_layers_layers (self : Network.t) (ls : list Layer) :
  Network.layers (Network.with_layers self ls) = ls.
Proof. reflexivity. Qed.

Lemma with_layers_twice (self : Network.t) (ls ls' : list Layer) :
  Network.with_layers (Network.with_layers self ls) ls'
  = Network.with_layers self ls'.
Proof. reflexivity. Qed.

Lemma with_layers_id (self : Network.t) :
  Network.with_layers self (Network.layers self) = self.
Proof. destruct self; reflexivity. Qed.

Lemma train_sample_layers (self : Network.t) (agg : R) (nc : nat)
      (X y : Np.ndarray1) :
  match sample_layers (Network.loss_function self) (Network.layers self) X y with
  | None => Network.train_sample self agg nc X y = None
  | Some ls' =>
      exists (agg' : R) (nc' : nat),
        Network.train_sample self agg nc X y
        = Some (Network.with_layers self ls', agg', nc')
  end.
Proof.
  unfold sample_layers, Network.train_sample, Network._forward_pass.
  destruct (Network.thread Layer_forward_pass (Network.layers self) X)
    as [[ls1 y_hat]|]; simpl; [|reflexivity].
  destruct (Np.argmax y_hat) as [k|]; simpl; [|reflexivity].
  unfold Network._backward_pass; simpl.
  destruct (Network.thread Layer_backward_pass (rev ls1)
              (Loss.gradient (Network.loss_function self) y_hat y))
    as [[rls J]|]; simpl; [|reflexivity].
  do 2 eexists. reflexivity.
Qed.

Lemma last_index_step (i n : nat) (iv : option nat) :
  last_index (S i) n (Some i) = last_index i (S n) iv.
Proof.
  destruct n as [|n]; simpl; [f_equal; lia | f_equal; lia].
Qed.

Lemma train_loop_layers (samples : list (Np.ndarray1 * Np.ndarray1)) :
  forall (e n i : nat) (st : Network.locals),
    match loop_layers (Network.loss_function (Network.net st))
                      (Network.batch_size (Network.net st))
                      (e * n + i) samples
                      (Network.layers (Network.net st)) with
    | None => Network.train_loop e n i samples st = None
    | Some (ls', tr') =>
        exists (agg' : R) (nc' : nat),
          Network.train_loop e n i samples st
          = Some {| Network.net := Network.with_layers (Network.net st) ls';
                    Network.aggregated := agg';
                    Network.num_correct := nc';
                    Network.i_var :=
                      last_index i (length samples) (Network.i_var st);
                    Network.trace := Network.trace st ++ tr' |}
    end.
Proof.
  induction samples as [|[X y] samples IH]; intros e n i st.
  - simpl. exists (Network.aggregated st), (Network.num_correct st).
    rewrite with_layers_id, app_nil_r. destruct st; reflexivity.
  - cbn [loop_layers Network.train_loop].
    pose proof (train_sample_layers (Network.net st) (Network.aggregated st)
                  (Network.num_correct st) X y) as Hs.
    destruct (sample_layers (Network.loss_function (Network.net st))
                (Network.layers (Network.net st)) X y) as [ls1|];
      cbn [bind]; [|rewrite Hs; reflexivity].
    destruct Hs as (agg1 & nc1 & ->). cbn [bind].
    unfold Network.batch_processed. cbn [Network.batch_size Network.with_layers].
    destruct (Network.batch_size (Network.net st) =? 0)%Z; cbn [bind]; [reflexivity|].
    replace (e * n + i + 1)%nat with (S (e * n + i)) by lia.
    destruct (Z.of_nat (S (e * n + i)) mod Network.batch_size (Network.net st) =? 0)%Z.
    + unfold Network._update_parameters. cbn [Network.layers Network.with_layers].
      destruct (Network.update_layers ls1) as [ls2|]; cbn [bind]; [|reflexivity].
      specialize (IH e n (S i)
        {| Network.net := Network.with_layers (Network.with_layers (Network.net st) ls1) ls2;
           Network.aggregated := agg1; Network.num_correct := nc1;
           Network.i_var := Some i;
           Network.trace := Network.trace st ++ [EvSample; EvUpdate] |}).
      cbn [Network.net Network.layers Network.with_layers Network.loss_function
           Network.batch_size Network.i_var Network.trace] in IH.
      replace (e * n + S i)%nat with (S (e * n + i)) in IH by lia.
      destruct (loop_layers _ _ (S (e * n + i)) samples ls2) as [[ls3 tr]|];
        cbn [bind]; [|exact IH].
      destruct IH as (agg' & nc' & ->). exists agg', nc'.
      rewrite (last_index_step i (length samples) (Network.i_var st)), <- app_assoc.
      reflexivity.
    + specialize (IH e n (S i)
        {| Network.net := Network.with_layers (Network.net st) ls1;
           Network.aggregated := agg1; Network.num_correct := nc1;
           Network.i_var := Some i;
           Network.trace := Network.trace st ++ [EvSample] |}).
      cbn [Network.net Network.layers Network.with_layers Network.loss_function
           Network.batch_size Network.i_var Network.trace] in IH.
      replace (e * n + S i)%nat with (S (e * n + i)) in IH by lia.
      destruct (loop_layers _ _ (S (e * n + i)) samples ls1) as [[ls3 tr]|];
        cbn [bind]; [|exact IH].
      destruct IH as (agg' & nc' & ->). exists agg', nc'.
      rewrite (last_index_step i (length samples) (Network.i_var st)), <- app_assoc.
      reflexivity.
Qed.

Lemma Forall2_rev_both {A B : Type} (P : A -> B -> Prop) (l : list A) (l' : list B) :
  Forall2 P l l' -> Forall2 P (rev l) (rev l').
Proof.
  induction 1 as [|x y l l' Hxy Hl IH]; simpl; [constructor|].
  apply Forall2_app; [exact IH | constructor; [exact Hxy | constructor]].
Qed.

Lemma Forall2_compose {A : Type} (P Q S : A -> A -> Prop) :
  (forall x y z, P x y -> Q y z -> S x z) ->
  forall l1 l2 l3, Forall2 P l1 l2 -> Forall2 Q l2 l3 -> Forall2 S l1 l3.
Proof.
  intros HPQ l1 l2 l3 H12; revert l3.
  induction H12 as [|x y l1 l2 Hxy H12 IH]; intros l3 H23; inv H23; constructor; eauto.
Qed.

Lemma appended_refl (l : Layer) : appended 0 l l.
Proof.
  destruct l as [i|h|s]; simpl; auto.
  repeat split. exists [], []. now rewrite !app_nil_r.
Qed.

Lemma appended_trans (a c : nat) (l1 l2 l3 : Layer) :
  appended a l1 l2 -> appended c l2 l3 -> appended (a + c) l1 l3.
Proof.
  destruct l1 as [i1|h1|s1], l2 as [i2|h2|s2], l3 as [i3|h3|s3];
    simpl; try tauto.
  intros (HW & Hb & Gs & vs & HG & Hv & HlG & Hlv)
         (HW' & Hb' & Gs' & vs' & HG' & Hv' & HlG' & Hlv').
  split; [congruence|]. split; [congruence|].
  exists (Gs ++ Gs'), (vs ++ vs').
  rewrite HG', HG, Hv', Hv, <- !app_assoc, !length_app. auto.
Qed.

Lemma forward_appended (l l' : Layer) (X out : Np.ndarray1) :
  Layer_forward_pass l X = Some (l', out) -> appended 0 l l'.
Proof.
  destruct l as [i|h|s]; simpl; intros H.
  - inv H. exact I.
  - unbind H. destruct a as [h' o]. inv H.
    apply hidden_forward_frame in Ha.
    destruct Ha as (_ & HW & Hb & _ & _ & HG & Hv & _).
    simpl. repeat split; auto. exists [], []. rewrite !app_nil_r. auto.
  - unbind H. destruct a as [s' o]. inv H. exact I.
Qed.

Lemma backward_appended (l l' : Layer) (J J' : Np.ndarray1) :
  Layer_backward_pass l J = Some (l', J') -> appended 1 l l'.
Proof.
  destruct l as [i|h|s]; simpl; intros H.
  - inv H. exact I.
  - unbind H. destruct a as [h' o]. inv H.
    apply hidden_backward_frame in Ha.
    destruct Ha as (_ & HW & Hb & _ & _ & _ & _ & G & v & HG & Hv).
    simpl. repeat split; auto. exists [G], [v]. auto.
  - unbind H. destruct a as [s' o]. inv H. exact I.
Qed.

Lemma forward_forget (l : Layer) (X : Np.ndarray1) :
  Layer_forward_pass (forget l) X = Layer_forward_pass l X.
Proof.
  destruct l as [i|h|s]; reflexivity.
Qed.

Lemma thread_forward_forget (ls : list Layer) (X : Np.ndarray1) :
  Network.thread Layer_forward_pass (map forget ls) X
  = Network.thread Layer_forward_pass ls X.
Proof.
  revert X; induction ls as [|l ls IH]; intros X; simpl; [reflexivity|].
  rewrite forward_forget.
  destruct (Layer_forward_pass l X) as [[l' x']|]; simpl; [|reflexivity].
  now rewrite IH.
Qed.

(** A forward call changes nothing but what the layer stores. *)
Lemma forward_forgotten (l l' : Layer) (X out : Np.ndarray1) :
  Layer_forward_pass l X = Some (l', out) -> forget l' = forget l.
Proof.
  destruct l as [i|h|s]; simpl; intros H.
  - inv H. reflexivity.
  - unbind H. destruct a as [h' o]. inv H.
    apply hidden_forward_frame in Ha.
    destruct Ha as (H1 & H2 & H3 & H4 & H5 & H6 & H7 & _).
    simpl. now rewrite H1, H2, H3, H4, H5, H6, H7.
  - unbind H. destruct a as [s' o]. inv H.
    unfold SoftmaxLayer.forward_pass in Ha. unbind Ha. inv Ha. reflexivity.
Qed.

Lemma thread_forward_forgotten (ls ls' : list Layer) (X out : Np.ndarray1) :
  Network.thread Layer_forward_pass ls X = Some (ls', out) ->
  map forget ls' = map forget ls.
Proof.
  intros H.
  apply (thread_Forall2 _ (fun l l' => forget l' = forget l)) in H.
  - induction H; simpl; congruence.
  - intros; eapply forward_forgotten; eauto.
Qed.

Lemma params_forget (l : Layer) : params (forget l) = params l.
Proof. destruct l; reflexivity. Qed.

Lemma forget_params (ls ls' : list Layer) :
  map forget ls' = map forget ls -> map params ls' = map params ls.
Proof.
  intros H. apply (f_equal (map params)) in H. rewrite !map_map in H.
  erewrite map_ext in H by (intros; apply params_forget).
  symmetry in H. erewrite map_ext in H by (intros; apply params_forget).
  auto.
Qed.

Lemma argmax_from_bound (v : Np.ndarray1) :
  forall (best : nat) (bv : R) (i : nat),
    (best < i)%nat -> (Np.argmax_from best bv i v < i + length v)%nat.
Proof.
  induction v as [|x v IH]; intros best bv i Hb; simpl; [lia|].
  destruct (Rlt_dec bv x).
  - specialize (IH i x (S i)). lia.
  - specialize (IH best bv (S i)). lia.
Qed.

Lemma argmax_total (v : Np.ndarray1) :
  length v <> 0%nat -> exists k, Np.argmax v = Some k /\ (k < length v)%nat.
Proof.
  destruct v as [|x v]; simpl; [lia | intros _].
  eexists; split; [reflexivity|].
  pose proof (argmax_from_bound v 0 x 1). lia.
Qed.

(** ** One training sample *)

Lemma sample_layers_total (L : Loss.t) (ls : list Layer) (d d' : nat)
      (X y : Np.ndarray1) :
  chain d ls d' -> d' <> 0%nat -> loss_ok L -> length X = d ->
  exists ls', sample_layers L ls X y = Some ls' /\ chain d ls' d'.
Proof.
  intros Hc Hd HL HX. unfold sample_layers.
  destruct (forward_total ls d d' X Hc HX) as (ls1 & y_hat & E & Hy & Hp).
  rewrite E; simpl.
  destruct (argmax_total y_hat) as (k & Ek & _); [lia|]. rewrite Ek; simpl.
  destruct (backward_total ls1 d d' (Loss.gradient L y_hat y) Hp)
    as (rls & J' & E' & _ & Hc'); [rewrite HL; exact Hy|].
  rewrite E'; simpl. eauto.
Qed.

Lemma sample_layers_appended (L : Loss.t) (ls ls' : list Layer)
      (X y : Np.ndarray1) :
  sample_layers L ls X y = Some ls' -> Forall2 (appended 1) ls ls'.
Proof.
  unfold sample_layers. intros H.
  unbind H. destruct a as [ls1 y_hat]. unbind H. unbind H.
  destruct a0 as [rls J]. inv H.
  apply (thread_Forall2 _ (appended 0)) in Ha;
    [|intros; eapply forward_appended; eauto].
  apply (thread_Forall2 _ (appended 1)) in Ha1;
    [|intros; eapply backward_appended; eauto].
  apply Forall2_rev_both in Ha1. rewrite rev_involutive in Ha1.
  apply (Forall2_compose (appended 0) (appended 1) (appended 1)
           (fun x y z => appended_trans 0 1 x y z) _ _ _ Ha Ha1).
Qed.

Lemma sample_layers_forget (L : Loss.t) (ls : list Layer) (X y : Np.ndarray1) :
  sample_layers L (map forget ls) X y = sample_layers L ls X y.
Proof.
  unfold sample_layers. now rewrite thread_forward_forget.
Qed.

(** ** The training loop over the layers *)

Lemma schedule_step (bs : Z) (k n : nat) :
  schedule bs k (S n)
  = (if (Z.of_nat (S k) mod bs =? 0)%Z then [EvSample; EvUpdate] else [EvSample])
      ++ schedule bs (S k) n.
Proof. reflexivity. Qed.

Lemma loop_layers_total (L : Loss.t) (bs : Z) (d d' : nat)
      (samples : list (Np.ndarray1 * Np.ndarray1)) :
  d' <> 0%nat -> loss_ok L -> bs <> 0%Z -> samples_ok d samples ->
  forall (k : nat) (ls : list Layer),
    chain d ls d' ->
    exists ls' tr, loop_layers L bs k samples ls = Some (ls', tr) /\ chain d ls' d'.
Proof.
  intros Hd HL Hbs. induction samples as [|[X y] samples IH]; intros Hs k ls Hc.
  - simpl. eauto.
  - apply Forall_cons_iff in Hs. destruct Hs as [HX Hs]. simpl in HX.
    cbn [loop_layers].
    destruct (sample_layers_total L ls d d' X y Hc Hd HL HX) as (ls1 & E1 & Hc1).
    rewrite E1; cbn [bind].
    destruct (Z.eqb_spec bs 0) as [|_]; [contradiction|].
    destruct (Z.of_nat (S k) mod bs =? 0)%Z.
    + destruct (update_total ls1 d d' Hc1) as (ls2 & E2 & Hc2).
      rewrite E2; cbn [bind].
      destruct (IH Hs (S k) ls2 Hc2) as (ls3 & tr & E3 & Hc3).
      rewrite E3; cbn [bind]. eauto.
    + destruct (IH Hs (S k) ls1 Hc1) as (ls3 & tr & E3 & Hc3).
      rewrite E3; cbn [bind]. eauto.
Qed.

Lemma loop_layers_trace (L : Loss.t) (bs : Z)
      (samples : list (Np.ndarray1 * Np.ndarray1)) :
  forall (k : nat) (ls ls' : list Layer) (tr : list event),
    loop_layers L bs k samples ls = Some (ls', tr) ->
    tr = schedule bs k (length samples).
Proof.
  induction samples as [|[X y] samples IH]; intros k ls ls' tr H.
  - simpl in H. inv H. reflexivity.
  - cbn [loop_layers] in H. unbind H.
    destruct (bs =? 0)%Z; [discriminate|].
    cbn [length]. rewrite schedule_step.
    destruct (Z.of_nat (S k) mod bs =? 0)%Z.
    + unbind H. unbind H. destruct a1 as [ls3 tr3]. inv H.
      apply IH in Ha1. subst. reflexivity.
    + unbind H. destruct a0 as [ls3 tr3]. inv H.
      apply IH in Ha0. subst. reflexivity.
Qed.

Lemma loop_layers_app (L : Loss.t) (bs : Z)
      (s1 s2 : list (Np.ndarray1 * Np.ndarray1)) :
  forall (k : nat) (ls : list Layer),
    loop_layers L bs k (s1 ++ s2) ls =
    ('(ls1, t1) <- loop_layers L bs k s1 ls ;;
     '(ls2, t2) <- loop_layers L bs (k + length s1) s2 ls1 ;;
     Some (ls2, t1 ++ t2)).
Proof.
  induction s1 as [|[X y] s1 IH]; intros k ls.
  - simpl. rewrite Nat.add_0_r.
    destruct (loop_layers L bs k s2 ls) as [[ls2 t2]|]; reflexivity.
  - cbn [app loop_layers length].
    destruct (sample_layers L ls X y) as [ls1|]; cbn [bind]; [|reflexivity].
    destruct (bs =? 0)%Z; [reflexivity|].
    replace (k + S (length s1))%nat with (S k + length s1)%nat by lia.
    destruct (Z.of_nat (S k) mod bs =? 0)%Z.
    + destruct (Network.update_layers ls1) as [ls2|]; cbn [bind]; [|reflexivity].
      rewrite IH.
      destruct (loop_layers L bs (S k) s1 ls2) as [[ls3 t3]|]; cbn [bind]; [|reflexivity].
      destruct (loop_layers L bs (S k + length s1) s2 ls3) as [[ls4 t4]|];
        reflexivity.
    + rewrite IH.
      destruct (loop_layers L bs (S k) s1 ls1) as [[ls3 t3]|]; cbn [bind]; [|reflexivity].
      destruct (loop_layers L bs (S k + length s1) s2 ls3) as [[ls4 t4]|];
        reflexivity.
Qed.

(** What the layers store does not survive the first training sample. *)
Lemma loop_layers_forget (L : Loss.t) (bs : Z) (k : nat)
      (samples : list (Np.ndarray1 * Np.ndarray1)) (ls1 ls2 : list Layer) :
  map forget ls1 = map forget ls2 ->
  match loop_layers L bs k samples ls1, loop_layers L bs k samples ls2 with
  | Some (a, t), Some (a', t') => map forget a = map forget a' /\ t = t'
  | None, None => True
  | _, _ => False
  end.
Proof.
  intros Hf. destruct samples as [|[X y] samples].
  - simpl. auto.
  - cbn [loop_layers].
    rewrite <- (sample_layers_forget L ls1), <- (sample_layers_forget L ls2), Hf.
    match goal with
    | |- match ?r with _ => _ end => destruct r as [[a t]|]; auto
    end.
Qed.

(** While the counter passes no multiple of the batch size, the loop only
    fills the buffers. *)
Lemma loop_layers_no_update (L : Loss.t) (bs : Z)
      (samples : list (Np.ndarray1 * Np.ndarray1)) :
  forall (k : nat) (ls ls' : list Layer) (tr : list event),
    (forall j, (j < length samples)%nat ->
               (Z.of_nat (k + j + 1) mod bs <> 0)%Z) ->
    loop_layers L bs k samples ls = Some (ls', tr) ->
    Forall2 (appended (length samples)) ls ls' /\
    tr = repeat EvSample (length samples).
Proof.
  induction samples as [|[X y] samples IH]; intros k ls ls' tr Hk H.
  - simpl in H. inv H. split; [|reflexivity].
    simpl. induction ls'; constructor; auto using appended_refl.
  - cbn [loop_layers] in H. unbind H. rename a into ls1.
    destruct (bs =? 0)%Z; [discriminate|].
    assert (Hk0 : (Z.of_nat (S k) mod bs <> 0)%Z).
    { replace (S k) with (k + 0 + 1)%nat by lia. apply Hk. simpl; lia. }
    destruct (Z.eqb_spec (Z.of_nat (S k) mod bs) 0) as [|_]; [contradiction|].
    unbind H. destruct a as [ls3 tr3]. inv H.
    apply IH in Ha0.
    + destruct Ha0 as [HF ->]. split; [|reflexivity].
      apply sample_layers_appended in Ha.
      apply (Forall2_compose (appended 1) (appended (length samples))
               (appended (length ((X, y) :: samples)))
               (fun x y z => appended_trans 1 (length samples) x y z)
               _ _ _ Ha HF).
    + intros j Hj. replace (S k + j + 1)%nat with (k + S j + 1)%nat by lia.
      apply Hk. simpl; lia.
Qed.

(** ** The validation block *)

Lemma primed_chain (ls : list Layer) :
  forall d d', primed d ls d' -> chain d ls d'.
Proof.
  induction ls as [|[i|h|s] ls IH]; intros d d' H; simpl in *; auto.
  - destruct H as (Hh & _ & Hp). auto.
  - destruct H as (Hd & _ & Hp). auto.
Qed.

Lemma net_ok_with_layers (d d' : nat) (self : Network.t) (ls : list Layer) :
  net_ok d d' self -> chain d ls d' -> net_ok d d' (Network.with_layers self ls).
Proof.
  intros (_ & H1 & H2 & H3) Hc. repeat split; auto.
Qed.

Lemma incr_length (vc vc' : list nat) (k : nat) :
  Network.incr vc k = Some vc' -> length vc' = length vc.
Proof.
  unfold Network.incr. destruct (Nat.ltb_spec k (length vc)); [|discriminate].
  intros E; injection E as <-.
  change (match vc with [] => [] | _ :: l => skipn k l end) with (skipn (S k) vc).
  rewrite length_app, length_firstn. cbn [length].
  rewrite length_skipn. lia.
Qed.

Lemma val_loop_total (d d' : nat) (samples : list (Np.ndarray1 * Np.ndarray1)) :
  samples_ok d samples ->
  forall (i : nat) (vc : list nat) (st : Network.locals),
    net_ok d d' (Network.net st) -> length vc = d' ->
    exists (st' : Network.locals) (vc' : list nat) (ls' : list Layer),
      Network.val_loop i samples vc st = Some (st', vc') /\
      Network.net st' = Network.with_layers (Network.net st) ls' /\
      chain d ls' d' /\
      map forget ls' = map forget (Network.layers (Network.net st)) /\
      Network.i_var st' = last_index i (length samples) (Network.i_var st) /\
      Network.trace st' = Network.trace st.
Proof.
  induction samples as [|[X y] samples IH]; intros Hs i vc st Hok Hvc.
  - exists st, vc, (Network.layers (Network.net st)). simpl.
    rewrite with_layers_id. repeat split; auto. apply Hok.
  - apply Forall_cons_iff in Hs. destruct Hs as [HX Hs]. simpl in HX.
    pose proof Hok as (Hc & Hd & HL & Hbs).
    destruct (forward_total _ d d' X Hc HX) as (ls1 & y_hat & E & Hy & Hp).
    destruct (argmax_total y_hat) as (k & Ek & Hk); [lia|].
    assert (Hok1 : net_ok d d' (Network.with_layers (Network.net st) ls1))
      by (apply net_ok_with_layers; [exact Hok | apply primed_chain; exact Hp]).
    assert (Hstep : exists agg nc vc1,
               Network.val_sample (Network.net st) (Network.aggregated st)
                 (Network.num_correct st) vc X y
               = Some (Network.with_layers (Network.net st) ls1, agg, nc, vc1)
               /\ length vc1 = d').
    { unfold Network.val_sample, Network._forward_pass.
      rewrite E; cbn [bind]. rewrite Ek; cbn [bind].
      destruct (Np.array_equal _ y).
      - unfold Network.incr.
        destruct (Nat.ltb_spec k (length vc)) as [Hlt|Hge]; [|lia].
        cbn [bind]. do 3 eexists. split; [reflexivity|].
        change (match vc with [] => [] | _ :: l => skipn k l end)
          with (skipn (S k) vc).
        rewrite length_app, length_firstn. cbn [length]. rewrite length_skipn. lia.
      - do 3 eexists. split; [reflexivity | exact Hvc]. }
    destruct Hstep as (agg & nc & vc1 & Es & Hvc1).
    cbn [Network.val_loop]. rewrite Es; cbn [bind].
    destruct (IH Hs (S i) vc1
                {| Network.net := Network.with_layers (Network.net st) ls1;
                   Network.aggregated := agg; Network.num_correct := nc;
                   Network.i_var := Some i;
                   Network.trace := Network.trace st |} Hok1 Hvc1)
      as (st' & vc' & ls' & E' & Hnet & Hc' & Hf & Hi & Htr).
    cbn [Network.net Network.i_var Network.trace Network.layers
         Network.with_layers] in *.
    exists st', vc', ls'. split; [exact E'|]. split; [exact Hnet|].
    split; [exact Hc'|]. split.
    + rewrite Hf. eapply thread_forward_forgotten; eauto.
    + split; [|exact Htr]. rewrite Hi.
      apply (last_index_step i (length samples) (Network.i_var st)).
Qed.

Lemma samples_ok_combine (d : nat) (X y : list Np.ndarray1) :
  Forall (fun x => length x = d) X -> samples_ok d (combine X y).
Proof.
  intros HX. revert y. induction HX as [|x X Hx HX IH]; intros [|l y]; simpl;
    try constructor; auto. apply IH.
Qed.

Lemma validation_pass_total (d d' : nat) (self : Network.t) (epoch : nat)
      (X_val y_val : list Np.ndarray1) (i_var : option nat) (tr : list event) :
  net_ok d d' self -> data_ok d d' X_val y_val -> y_val <> [] ->
  i_var <> None ->
  exists (self' : Network.t) (i' : nat) (ls' : list Layer) (loss acc : R),
    Network.validation_pass self epoch X_val y_val i_var tr = Some (self', Some i') /\
    self' = Network.record_val (Network.with_layers self ls') epoch loss acc /\
    chain d ls' d' /\
    map forget ls' = map forget (Network.layers self).
Proof.
  intros Hok (Hlen & HX & Hy) Hne Hi.
  unfold Network.validation_pass.
  destruct y_val as [|y0 y_val]; [congruence|]. cbn [nth_error bind].
  assert (Hy0 : length y0 = d') by (inv Hy; auto).
  destruct (val_loop_total d d' (combine X_val (y0 :: y_val))
              (samples_ok_combine d _ _ HX) 0 (repeat 0%nat (length y0))
              {| Network.net := self; Network.aggregated := 0;
                 Network.num_correct := 0%nat; Network.i_var := i_var;
                 Network.trace := tr |} Hok)
    as (st' & vc' & ls' & E & Hnet & Hc & Hf & Hiv & Htr).
  { now rewrite repeat_length. }
  cbn [Network.net Network.i_var Network.trace] in *.
  rewrite E; cbn [bind].
  assert (Hsome : exists i', Network.i_var st' = Some i').
  { rewrite Hiv. destruct (length (combine X_val (y0 :: y_val))); simpl; eauto.
    destruct i_var; [eauto | congruence]. }
  destruct Hsome as (i' & Ei). rewrite Ei; cbn [bind].
  exists (Network.record_val (Network.net st') epoch
            (Network.aggregated st' / INR (i' + 1))
            (INR (Network.num_correct st') / INR (i' + 1))), i', ls'.
  do 2 eexists. split; [reflexivity|]. rewrite Hnet. auto.
Qed.

(** ** One epoch, then all of them *)

Lemma combine_length_eq {A B : Type} (X : list A) (y : list B) :
  length X = length y -> length (combine X y) = length X.
Proof. intros H. rewrite length_combine. lia. Qed.

Lemma fit_epoch_total (d d' : nat) (self : Network.t)
      (X_train y_train : list Np.ndarray1)
      (X_val y_val : option (list Np.ndarray1))
      (epoch : nat) (i_var : option nat) (tr : list event) :
  net_ok d d' self -> data_ok d d' X_train y_train -> X_train <> [] ->
  val_ok d d' X_val y_val ->
  exists (self' : Network.t) (i' : nat) (ls_e : list Layer) (tr_e : list event)
         (loss acc : R),
    Network.fit_epoch self X_train y_train X_val y_val epoch i_var tr
      = Some (self', Some i', tr ++ tr_e) /\
    loop_layers (Network.loss_function self) (Network.batch_size self)
      (epoch * length X_train) (combine X_train y_train) (Network.layers self)
      = Some (ls_e, tr_e) /\
    map forget (Network.layers self') = map forget ls_e /\
    net_ok d d' self' /\ same_config self self' /\
    Network.train_loss self' = Network.train_loss self ++ [(epoch, loss)] /\
    Network.train_accuracy self' = Network.train_accuracy self ++ [(epoch, acc)] /\
    (if is_validating X_val y_val
     then exists vl va,
         Network.val_loss self' = Network.val_loss self ++ [(epoch, vl)] /\
         Network.val_accuracy self' = Network.val_accuracy self ++ [(epoch, va)]
     else Network.val_loss self' = Network.val_loss self /\
          Network.val_accuracy self' = Network.val_accuracy self).
Proof.
  intros Hok Hdata HX Hval.
  pose proof Hok as (Hc & Hd & HL & Hbs).
  pose proof Hdata as (Hlen & HXs & Hys).
  destruct (loop_layers_total (Network.loss_function self)
              (Network.batch_size self) d d' (combine X_train y_train)
              Hd HL Hbs (samples_ok_combine d _ _ HXs)
              (epoch * length X_train) (Network.layers self) Hc)
    as (ls_e & tr_e & El & Hce).
  pose proof (train_loop_layers (combine X_train y_train) epoch
                (length X_train) 0
                {| Network.net := self; Network.aggregated := 0;
                   Network.num_correct := 0%nat; Network.i_var := i_var;
                   Network.trace := tr |}) as Htl.
  cbn [Network.net Network.i_var Network.trace] in Htl.
  rewrite Nat.add_0_r, El in Htl. destruct Htl as (agg & nc & Etl).
  rewrite (combine_length_eq _ _ Hlen) in Etl.
  destruct (length X_train) as [|n'] eqn:En.
  { destruct X_train; [congruence | discriminate]. }
  cbn [last_index] in Etl.
  unfold Network.fit_epoch. rewrite En, Etl. cbn [bind Network.i_var].
  cbn [Network.net Network.aggregated Network.num_correct Network.trace].
  set (self1 := Network.record_train (Network.with_layers self ls_e) epoch
                  (agg / INR (0 + n' + 1)) (INR nc / INR (0 + n' + 1))).
  assert (Hok1 : net_ok d d' self1) by (repeat split; auto).
  destruct X_val as [Xv|]; [destruct y_val as [yv|]|]; cbn [is_validating].
  - destruct Hval as [Hvd Hvne].
    destruct (validation_pass_total d d' self1 epoch Xv yv (Some (0 + n')%nat)
                (tr ++ tr_e) Hok1 Hvd Hvne)
      as (self' & i' & ls' & vl & va & Ev & -> & Hc' & Hf); [discriminate|].
    rewrite Ev; cbn [bind].
    exists (Network.record_val (Network.with_layers self1 ls') epoch vl va),
           i', ls_e, tr_e.
    do 2 eexists. split; [reflexivity|]. split; [exact El|].
    split; [exact Hf|]. split; [repeat split; auto|].
    split; [repeat split|]. split; [reflexivity|]. split; [reflexivity|].
    exists vl, va. split; reflexivity.
  - exists self1, (0 + n')%nat, ls_e, tr_e. do 2 eexists.
    split; [reflexivity|]. split; [exact El|]. split; [reflexivity|].
    split; [exact Hok1|]. split; [repeat split|].
    split; [reflexivity|]. split; [reflexivity|]. split; reflexivity.
  - exists self1, (0 + n')%nat, ls_e, tr_e. do 2 eexists.
    split; [reflexivity|]. split; [exact El|]. split; [reflexivity|].
    split; [exact Hok1|]. split; [repeat split|].
    split; [reflexivity|]. split; [reflexivity|]. split; reflexivity.
Qed.

Lemma same_config_trans (s1 s2 s3 : Network.t) :
  same_config s1 s2 -> same_config s2 s3 -> same_config s1 s3.
Proof.
  unfold same_config. intros (A1 & A2 & A3 & A4 & A5) (B1 & B2 & B3 & B4 & B5).
  repeat split; congruence.
Qed.

Lemma fit_epochs_total (d d' : nat) (X_train y_train : list Np.ndarray1)
      (X_val y_val : option (list Np.ndarray1)) :
  data_ok d d' X_train y_train -> X_train <> [] -> val_ok d d' X_val y_val ->
  forall (count : nat) (self : Network.t) (epoch : nat)
         (i_var : option nat) (tr : list event),
    net_ok d d' self ->
    exists (self' : Network.t) (i' : option nat) (ls_f : list Layer)
           (tr_f : list event),
      Network.fit_epochs self X_train y_train X_val y_val epoch count i_var tr
        = Some (self', i', tr ++ tr_f) /\
      loop_layers (Network.loss_function self) (Network.batch_size self)
        (epoch * length X_train)
        (concat (repeat (combine X_train y_train) count)) (Network.layers self)
        = Some (ls_f, tr_f) /\
      map forget (Network.layers self') = map forget ls_f /\
      net_ok d d' self' /\ same_config self self' /\
      epochs_of (Network.train_loss self')
        = epochs_of (Network.train_loss self) ++ seq epoch count /\
      epochs_of (Network.train_accuracy self')
        = epochs_of (Network.train_accuracy self) ++ seq epoch count /\
      (if is_validating X_val y_val
       then epochs_of (Network.val_loss self')
              = epochs_of (Network.val_loss self) ++ seq epoch count /\
            epochs_of (Network.val_accuracy self')
              = epochs_of (Network.val_accuracy self) ++ seq epoch count
       else Network.val_loss self' = Network.val_loss self /\
            Network.val_accuracy self' = Network.val_accuracy self).
Proof.
  intros Hdata HX Hval. unfold epochs_of.
  induction count as [|count IH]; intros self epoch i_var tr Hok.
  - exists self, i_var, (Network.layers self), []. simpl.
    rewrite !app_nil_r.
    split; [reflexivity|]. split; [reflexivity|]. split; [reflexivity|].
    split; [exact Hok|]. split; [repeat split|].
    split; [reflexivity|]. split; [reflexivity|].
    destruct (is_validating X_val y_val); rewrite ?app_nil_r; auto.
  - destruct (fit_epoch_total d d' self X_train y_train X_val y_val epoch
                i_var tr Hok Hdata HX Hval)
      as (self1 & i1 & ls_e & tr_e & loss & acc & E1 & El & Hf1 & Hok1 & Hcfg1
          & Htl & Hta & Hv1).
    destruct (IH self1 (S epoch) (Some i1) (tr ++ tr_e) Hok1)
      as (self' & i' & ls_f1 & tr_f1 & E2 & El2 & Hf2 & Hok' & Hcfg2
          & Htl2 & Hta2 & Hv2).
    pose proof Hcfg1 as (HLeq & _ & Hbseq & _).
    rewrite HLeq, Hbseq in El2.
    pose proof (loop_layers_forget (Network.loss_function self)
                  (Network.batch_size self) (S epoch * length X_train)
                  (concat (repeat (combine X_train y_train) count))
                  (Network.layers self1) ls_e Hf1) as Hfg.
    rewrite El2 in Hfg.
    destruct (loop_layers (Network.loss_function self) (Network.batch_size self)
                (S epoch * length X_train)
                (concat (repeat (combine X_train y_train) count)) ls_e)
      as [[ls_f tr_f]|] eqn:El3; [|contradiction].
    destruct Hfg as [Hfg <-].
    exists self', i', ls_f, (tr_e ++ tr_f1).
    split.
    { cbn [Network.fit_epochs]. rewrite E1; cbn [bind].
      rewrite E2, app_assoc. reflexivity. }
    split.
    { cbn [repeat concat]. rewrite loop_layers_app, El; cbn [bind].
      rewrite (combine_length_eq _ _ (proj1 Hdata)).
      replace (epoch * length X_train + length X_train)%nat
        with (S epoch * length X_train)%nat by lia.
      rewrite El3. reflexivity. }
    split; [congruence|]. split; [exact Hok'|].
    split; [eapply same_config_trans; eauto|].
    split.
    { rewrite Htl2, Htl, map_app, <- app_assoc. reflexivity. }
    split.
    { rewrite Hta2, Hta, map_app, <- app_assoc. reflexivity. }
    destruct (is_validating X_val y_val).
    + destruct Hv1 as (vl & va & Hvl & Hva). destruct Hv2 as [Hvl2 Hva2].
      rewrite Hvl2, Hva2, Hvl, Hva, !map_app, <- !app_assoc. split; reflexivity.
    + destruct Hv1 as [Hvl Hva]. destruct Hv2 as [Hvl2 Hva2].
      split; congruence.
Qed.

(** The whole of [fit]: it returns; the layers it leaves are, up to the
    tensors they store, those of the training loop run over all samples with
    one running counter; the histories hold the epochs in order. *)
Lemma fit_total (d d' : nat) (self : Network.t)
      (X_train y_train : list Np.ndarray1)
      (X_val y_val : option (list Np.ndarray1)) (epochs : nat) :
  net_ok d d' self -> data_ok d d' X_train y_train -> X_train <> [] ->
  val_ok d d' X_val y_val ->
  exists (self' : Network.t) (ls_f : list Layer) (tr : list event),
    Network.fit self X_train y_train X_val y_val epochs = Some (self', tr) /\
    loop_layers (Network.loss_function self) (Network.batch_size self) 0
      (all_samples X_train y_train epochs) (Network.layers self)
      = Some (ls_f, tr) /\
    map forget (Network.layers self') = map forget ls_f /\
    net_ok d d' self' /\ same_config self self' /\
    epochs_of (Network.train_loss self') = seq 0 epochs /\
    epochs_of (Network.train_accuracy self') = seq 0 epochs /\
    (if is_validating X_val y_val
     then epochs_of (Network.val_loss self') = seq 0 epochs /\
          epochs_of (Network.val_accuracy self') = seq 0 epochs
     else Network.val_loss self' = [] /\ Network.val_accuracy self' = []).
Proof.
  intros Hok Hdata HX Hval.
  assert (Hok0 : net_ok d d' (Network.clear_history self))
    by (destruct Hok as (? & ? & ? & ?); repeat split; auto).
  destruct (fit_epochs_total d d' X_train y_train X_val y_val Hdata HX Hval
              epochs (Network.clear_history self) 0 None [] Hok0)
    as (self' & i' & ls_f & tr_f & E & El & Hf & Hok' & Hcfg & Htl & Hta & Hv).
  exists self', ls_f, tr_f.
  split; [unfold Network.fit; rewrite E; reflexivity|].
  split; [exact El|]. split; [exact Hf|]. split; [exact Hok'|].
  split; [exact Hcfg|]. split; [exact Htl|]. split; [exact Hta|].
  destruct (is_validating X_val y_val); exact Hv.
Qed.

(** ** The schedule of updates *)

Lemma all_samples_length (X y : list Np.ndarray1) (epochs : nat) :
  length X = length y ->
  length (all_samples X y epochs) = (epochs * length X)%nat.
Proof.
  intros H. unfold all_samples. induction epochs as [|e IH]; simpl; [reflexivity|].
  rewrite length_app, IH, (combine_length_eq _ _ H). reflexivity.
Qed.

Lemma update_indices_schedule (bs : Z) (n : nat) :
  forall seen : nat,
    update_indices seen (schedule bs seen n)
    = filter (fun k => (Z.of_nat k mod bs =? 0)%Z) (seq (S seen) n).
Proof.
  induction n as [|n IH]; intros seen; [reflexivity|].
  rewrite schedule_step. cbn [seq filter].
  destruct (Z.of_nat (S seen) mod bs =? 0)%Z; cbn [app update_indices];
    rewrite IH; reflexivity.
Qed.

Lemma run_samples_layers (self : Network.t) (ls' : list Layer) (tr : list event)
      (samples : list (Np.ndarray1 * Np.ndarray1)) :
  loop_layers (Network.loss_function self) (Network.batch_size self) 0
    samples (Network.layers self) = Some (ls', tr) ->
  exists st : Network.locals,
    run_samples self 0 samples = Some st /\
    Network.layers (Network.net st) = ls' /\
    Network.trace st = tr.
Proof.
  intros E. unfold run_samples.
  pose proof (train_loop_layers samples 0 0 0
                {| Network.net := self; Network.aggregated := 0;
                   Network.num_correct := 0%nat; Network.i_var := None;
                   Network.trace := [] |}) as H.
  cbn [Network.net Network.i_var Network.trace Nat.mul Nat.add] in H.
  rewrite E in H. destruct H as (agg & nc & ->).
  eexists. split; [reflexivity|]. split; reflexivity.
Qed.

Lemma update_layers_every_hidden (ls : list Layer) :
  Network.update_layers ls = update_every_hidden ls.
Proof.
  unfold update_every_hidden.
  induction ls as [|[i|h|s] ls IH]; cbn [Network.update_layers traverse update_if_hidden];
    [reflexivity | | | ]; rewrite IH.
  - reflexivity.
  - destruct (HiddenLayer.update_parameters h); reflexivity.
  - reflexivity.
Qed.

(** The training loop is the counted run of the specification: same
    layers, and its updates come at the counter values of the counted
    run. *)
Lemma loop_layers_counted (L : Loss.t) (bs : Z)
      (samples : list (Np.ndarray1 * Np.ndarray1)) :
  forall (k : nat) (ls ls' : list Layer) (tr : list event),
    loop_layers L bs k samples ls = Some (ls', tr) ->
    counted_run L bs k samples ls = Some (ls', update_indices k tr).
Proof.
  induction samples as [|[X y] samples IH]; intros k ls ls' tr H.
  - simpl in H. inv H. reflexivity.
  - cbn [loop_layers] in H. cbn [counted_run].
    destruct (sample_layers L ls X y) as [ls1|]; cbn [bind] in *; [|discriminate].
    destruct (bs =? 0)%Z; [discriminate|].
    destruct (Z.of_nat (S k) mod bs =? 0)%Z.
    + rewrite <- update_layers_every_hidden.
      destruct (Network.update_layers ls1) as [ls2|]; cbn [bind] in *; [|discriminate].
      destruct (loop_layers L bs (S k) samples ls2) as [[ls3 tr3]|] eqn:E;
        cbn [bind] in H; [|discriminate].
      inv H. rewrite (IH _ _ _ _ E). reflexivity.
    + destruct (loop_layers L bs (S k) samples ls1) as [[ls3 tr3]|] eqn:E;
        cbn [bind] in H; [|discriminate].
      inv H. rewrite (IH _ _ _ _ E). reflexivity.
Qed.

(** C2. [fit] returns the network the training loop leaves when it runs
    over all samples of all epochs with one running counter, never reset;
    its events are those of the schedule in which [_update_parameters]
    follows exactly the samples whose running number is a multiple of
    [batch_size].  With [batch_size = 4] and 8 training samples in all, in
    one epoch or in two, the updates come after samples 4 and 8.  The
    parameters and buffers [fit] leaves are those of the counted run of the
    specification, in which [update_parameters] is called on every Hidden
    layer at each of these counter values and at no other. *)
Theorem fit_update_schedule :
  forall (d d' : nat) (self : Network.t) (X_train y_train : list Np.ndarray1)
         (X_val y_val : option (list Np.ndarray1)) (epochs : nat),
    net_ok d d' self -> data_ok d d' X_train y_train -> X_train <> [] ->
    val_ok d d' X_val y_val ->
    exists (self' : Network.t) (tr : list event) (st : Network.locals)
           (ls_c : list Layer),
      Network.fit self X_train y_train X_val y_val epochs = Some (self', tr) /\
      run_samples self 0 (all_samples X_train y_train epochs) = Some st /\
      Network.trace st = tr /\
      map params (Network.layers (Network.net st))
        = map params (Network.layers self') /\
      tr = schedule (Network.batch_size self) 0 (epochs * length X_train) /\
      update_indices 0 tr
        = filter (fun k => (Z.of_nat k mod Network.batch_size self =? 0)%Z)
                 (seq 1 (epochs * length X_train)) /\
      (Network.batch_size self = 4%Z -> (epochs * length X_train = 8)%nat ->
       update_indices 0 tr = [4; 8]%nat) /\
      counted_run (Network.loss_function self) (Network.batch_size self) 0
        (all_samples X_train y_train epochs) (Network.layers self)
        = Some (ls_c,
                filter (fun k => (Z.of_nat k mod Network.batch_size self =? 0)%Z)
                       (seq 1 (epochs * length X_train))) /\
      map params (Network.layers self') = map params ls_c.
Proof.
  intros d d' self X y Xv yv epochs Hok Hdata HX Hval.
  destruct (fit_total d d' self X y Xv yv epochs Hok Hdata HX Hval)
    as (self' & ls_f & tr & E & El & Hf & _).
  destruct (run_samples_layers self ls_f tr _ El) as (st & Er & Hl & Ht).
  assert (Htr : tr = schedule (Network.batch_size self) 0 (epochs * length X)).
  { apply loop_layers_trace in El.
    now rewrite (all_samples_length _ _ _ (proj1 Hdata)) in El. }
  assert (Hidx : update_indices 0 tr
                 = filter (fun k => (Z.of_nat k mod Network.batch_size self =? 0)%Z)
                          (seq 1 (epochs * length X)))
    by (rewrite Htr; apply update_indices_schedule).
  exists self', tr, st, ls_f.
  split; [exact E|]. split; [exact Er|]. split; [exact Ht|].
  split; [rewrite Hl; symmetry; apply forget_params; exact Hf|].
  split; [exact Htr|]. split; [exact Hidx|].
  split; [intros Hbs HT; rewrite Hidx, Hbs, HT; reflexivity|].
  split; [rewrite <- Hidx; apply loop_layers_counted; exact El|].
  apply forget_params. exact Hf.
Qed.

Lemma relu_unit_ok : hidden_ok 1 relu_unit.
Proof.
  unfold hidden_ok, shape_is, Np.well_formed, Np.nrows; simpl.
  repeat split; repeat constructor.
Qed.

Lemma squared_error_ok : loss_ok squared_error.
Proof.
  intros y_hat y. simpl. now rewrite length_map, length_seq.
Qed.

Lemma toy_network_ok : net_ok 1 1 toy_network.
Proof.
  unfold net_ok; simpl. split; [|split; [|split]].
  - split; [exact relu_unit_ok|]. split; [discriminate | reflexivity].
  - discriminate.
  - exact squared_error_ok.
  - discriminate.
Qed.

Lemma ones_ok (n : nat) : data_ok 1 1 (ones n) (ones n).
Proof.
  unfold data_ok, ones. repeat split; apply Forall_forall;
    intros x Hx; apply repeat_spec in Hx; subst; reflexivity.
Qed.

Lemma fit_update_schedule_witness :
  (exists (self' : Network.t) (tr : list event),
      Network.fit toy_network (ones 8) (ones 8) None None 1 = Some (self', tr) /\
      update_indices 0 tr = [4; 8]%nat) /\
  (exists (self' : Network.t) (tr : list event),
      Network.fit toy_network (ones 4) (ones 4) None None 2 = Some (self', tr) /\
      update_indices 0 tr = [4; 8]%nat).
Proof.
  split.
  - destruct (fit_update_schedule 1 1 toy_network (ones 8) (ones 8) None None 1
                toy_network_ok (ones_ok 8))
      as (self' & tr & st & ls_c & E & _ & _ & _ & _ & _ & H & _);
      [discriminate | exact I |].
    exists self', tr. split; [exact E | apply H; reflexivity].
  - destruct (fit_update_schedule 1 1 toy_network (ones 4) (ones 4) None None 2
                toy_network_ok (ones_ok 4))
      as (self' & tr & st & ls_c & E & _ & _ & _ & _ & _ & H & _);
      [discriminate | exact I |].
    exists self', tr. split; [exact E | apply H; reflexivity].
Defined.

(** ** The histories *)

(** C4 (as amended). After a [fit] call the train-loss and train-accuracy
    histories hold exactly the epochs [0 .. epochs-1], in order, whatever
    they held before the call; so do the validation histories when a
    validation set was supplied, and they are empty when none was. *)
Theorem fit_history_epochs :
  forall (d d' : nat) (self : Network.t) (X_train y_train : list Np.ndarray1)
         (X_val y_val : option (list Np.ndarray1)) (epochs : nat),
    net_ok d d' self -> data_ok d d' X_train y_train -> X_train <> [] ->
    val_ok d d' X_val y_val ->
    exists (self' : Network.t) (tr : list event),
      Network.fit self X_train y_train X_val y_val epochs = Some (self', tr) /\
      epochs_of (Network.train_loss self') = seq 0 epochs /\
      epochs_of (Network.train_accuracy self') = seq 0 epochs /\
      (if is_validating X_val y_val
       then epochs_of (Network.val_loss self') = seq 0 epochs /\
            epochs_of (Network.val_accuracy self') = seq 0 epochs
       else Network.val_loss self' = [] /\ Network.val_accuracy self' = []).
Proof.
  intros d d' self X y Xv yv epochs Hok Hdata HX Hval.
  destruct (fit_total d d' self X y Xv yv epochs Hok Hdata HX Hval)
    as (self' & ls_f & tr & E & _ & _ & _ & _ & Htl & Hta & Hv).
  exists self', tr. auto.
Qed.

Lemma ones_val_ok (n : nat) : val_ok 1 1 (Some (ones (S n))) (Some (ones (S n))).
Proof.
  split; [apply ones_ok | discriminate].
Qed.

Lemma fit_history_epochs_witness :
  exists (self' : Network.t) (tr : list event),
    Network.fit toy_network (ones 3) (ones 3) (Some (ones 2)) (Some (ones 2)) 2
      = Some (self', tr) /\
    epochs_of (Network.train_loss self') = [0; 1]%nat /\
    epochs_of (Network.val_loss self') = [0; 1]%nat.
Proof.
  destruct (fit_history_epochs 1 1 toy_network (ones 3) (ones 3)
              (Some (ones 2)) (Some (ones 2)) 2
              toy_network_ok (ones_ok 3))
    as (self' & tr & E & Htl & _ & Hvl & _);
    [discriminate | apply ones_val_ok |].
  exists self', tr. auto.
Defined.

(** C4 as it is stated fails: one epoch of [fit] without a validation set
    leaves one entry in the train-loss history and none in the
    validation-loss history. *)
Lemma fit_history_validation_absent :
  exists (self' : Network.t) (tr : list event),
    Network.fit toy_network (ones 1) (ones 1) None None 1 = Some (self', tr) /\
    epochs_of (Network.train_loss self') = [0%nat] /\
    epochs_of (Network.val_loss self') <> seq 0 1 /\
    length (Network.val_loss self') <> 1%nat.
Proof.
  destruct (fit_total 1 1 toy_network (ones 1) (ones 1) None None 1
              toy_network_ok (ones_ok 1))
    as (self' & ls_f & tr & E & _ & _ & _ & _ & Htl & _ & Hvl & _);
    [discriminate | exact I |].
  exists self', tr. simpl in Hvl. rewrite Hvl.
  repeat split; auto; discriminate.
Qed.

(** ** Validation *)

(** C9. The validation block of an epoch returns, and leaves [W], [b],
    [W_gradients] and [b_gradients] of every Hidden layer as they were
    when the training phase ended. *)
Theorem validation_pass_forward_only :
  forall (d d' : nat) (self : Network.t) (epoch : nat)
         (X_val y_val : list Np.ndarray1) (i_var : option nat)
         (tr : list event),
    net_ok d d' self -> data_ok d d' X_val y_val -> y_val <> [] ->
    i_var <> None ->
    exists (self' : Network.t) (i' : nat),
      Network.validation_pass self epoch X_val y_val i_var tr
        = Some (self', Some i') /\
      map params (Network.layers self') = map params (Network.layers self).
Proof.
  intros d d' self epoch Xv yv iv tr Hok Hdata Hne Hiv.
  destruct (validation_pass_total d d' self epoch Xv yv iv tr Hok Hdata Hne Hiv)
    as (self' & i' & ls' & vl & va & E & -> & _ & Hf).
  exists (Network.record_val (Network.with_layers self ls') epoch vl va), i'.
  split; [exact E|]. simpl. apply forget_params. exact Hf.
Qed.

Lemma validation_pass_forward_only_witness :
  exists (self' : Network.t) (i' : nat),
    Network.validation_pass toy_network 0 (ones 2) (ones 2) (Some 0%nat) []
      = Some (self', Some i') /\
    map params (Network.layers self') = map params (Network.layers toy_network).
Proof.
  apply (validation_pass_forward_only 1 1 toy_network 0 (ones 2) (ones 2)
           (Some 0%nat) [] toy_network_ok (ones_ok 2)); discriminate.
Defined.

(** ** The samples after the last batch boundary *)

Lemma appended_forget (k : nat) (l l2 l3 : Layer) :
  forget l3 = forget l2 -> appended k l l2 -> appended k l l3.
Proof.
  destruct l as [i|h|s], l2 as [i2|h2|s2], l3 as [i3|h3|s3];
    simpl; intros Hf H; try discriminate; try tauto.
  injection Hf as _ HW Hb _ _ HG Hv.
  rewrite HW, Hb, HG, Hv. exact H.
Qed.

Lemma Forall2_appended_forget (k : nat) (ls ls2 : list Layer) :
  Forall2 (appended k) ls ls2 ->
  forall ls3, map forget ls3 = map forget ls2 -> Forall2 (appended k) ls ls3.
Proof.
  induction 1 as [|l l2 ls ls2 Hl Hls IH]; intros [|l3 ls3] Hf;
    simpl in Hf; try discriminate; constructor.
  - injection Hf as Hf _. eapply appended_forget; eauto.
  - injection Hf as _ Hf. auto.
Qed.

Lemma trailing_bounds (bs : Z) (total : nat) :
  (0 < bs)%Z ->
  (trailing bs total <= total)%nat /\
  Z.of_nat (trailing bs total) = (Z.of_nat total mod bs)%Z.
Proof.
  intros Hbs. unfold trailing.
  pose proof (Z.mod_pos_bound (Z.of_nat total) bs Hbs) as [H0 H1].
  pose proof (Z.mod_le (Z.of_nat total) bs (Nat2Z.is_nonneg total) Hbs) as Hle.
  split; [lia|]. apply Z2Nat.id; exact H0.
Qed.

Lemma trailing_no_boundary (bs : Z) (total j : nat) :
  (0 < bs)%Z -> (j < trailing bs total)%nat ->
  (Z.of_nat (total - trailing bs total + j + 1) mod bs <> 0)%Z.
Proof.
  intros Hbs Hj.
  destruct (trailing_bounds bs total Hbs) as [Hle Hr].
  pose proof (Z.mod_pos_bound (Z.of_nat total) bs Hbs) as [H0 H1].
  pose proof (Z.div_mod (Z.of_nat total) bs ltac:(lia)) as Hdm.
  replace (Z.of_nat (total - trailing bs total + j + 1))
    with (Z.of_nat (j + 1) + (Z.of_nat total / bs) * bs)%Z by lia.
  rewrite Z_mod_plus_full, Z.mod_small by lia. lia.
Qed.

(** C10. When the total number of training samples of a [fit] call is not
    a multiple of [batch_size], the network [fit] returns has, in every
    Hidden layer, the [W] and [b] the run had reached before its last
    [total % batch_size] samples, and that many more entries in each gradient
    buffer: those samples were sent backward and no update followed. *)
Theorem fit_trailing_samples_unapplied :
  forall (d d' : nat) (self : Network.t) (X_train y_train : list Np.ndarray1)
         (X_val y_val : option (list Np.ndarray1)) (epochs : nat),
    net_ok d d' self -> data_ok d d' X_train y_train ->
    val_ok d d' X_val y_val ->
    (0 < Network.batch_size self)%Z ->
    (Z.of_nat (epochs * length X_train) mod Network.batch_size self <> 0)%Z ->
    exists (self' : Network.t) (tr : list event) (st : Network.locals),
      Network.fit self X_train y_train X_val y_val epochs = Some (self', tr) /\
      run_samples self 0
        (firstn (epochs * length X_train
                 - trailing (Network.batch_size self) (epochs * length X_train))
                (all_samples X_train y_train epochs)) = Some st /\
      (0 < trailing (Network.batch_size self) (epochs * length X_train))%nat /\
      Forall2 (appended (trailing (Network.batch_size self)
                                  (epochs * length X_train)))
              (Network.layers (Network.net st)) (Network.layers self') /\
      tr = Network.trace st
           ++ repeat EvSample (trailing (Network.batch_size self)
                                        (epochs * length X_train)).
Proof.
  intros d d' self X y Xv yv epochs Hok Hdata Hval Hbs Hmod.
  set (bs := Network.batch_size self) in *.
  set (T := (epochs * length X)%nat) in *.
  assert (HX : X <> []).
  { intros ->. apply Hmod. unfold T. simpl. rewrite Nat.mul_0_r. apply Z.mod_0_l. lia. }
  destruct (trailing_bounds bs T Hbs) as [Hle Hr].
  assert (Hpos : (0 < trailing bs T)%nat) by lia.
  destruct (fit_total d d' self X y Xv yv epochs Hok Hdata HX Hval)
    as (self' & ls_f & tr & E & El & Hf & _).
  pose proof (all_samples_length X y epochs (proj1 Hdata)) as Hall.
  fold T in Hall.
  rewrite <- (firstn_skipn (T - trailing bs T) (all_samples X y epochs)) in El.
  rewrite loop_layers_app in El.
  unbind El. destruct a as [ls_p tr_p]. unbind El. destruct a as [ls_q tr_q].
  inv El.
  assert (Hlen1 : length (firstn (T - trailing bs T) (all_samples X y epochs))
                  = (T - trailing bs T)%nat)
    by (rewrite length_firstn; lia).
  assert (Hlen2 : length (skipn (T - trailing bs T) (all_samples X y epochs))
                  = trailing bs T)
    by (rewrite length_skipn; lia).
  rewrite Hlen1 in Ha0. simpl in Ha0.
  apply loop_layers_no_update in Ha0.
  - destruct Ha0 as [HF ->]. rewrite Hlen2 in *.
    destruct (run_samples_layers self ls_p tr_p _ Ha) as (st & Er & Hl & Ht).
    exists self', (tr_p ++ repeat EvSample (trailing bs T)), st.
    split; [exact E|]. split; [exact Er|]. split; [exact Hpos|].
    split; [|now rewrite Ht].
    rewrite Hl. eapply Forall2_appended_forget; eauto.
  - intros j Hj. rewrite Hlen2 in Hj. apply trailing_no_boundary; assumption.
Qed.

Lemma fit_trailing_samples_unapplied_witness :
  exists (self' : Network.t) (tr : list event) (st : Network.locals),
    Network.fit toy_network (ones 3) (ones 3) None None 2 = Some (self', tr) /\
    run_samples toy_network 0 (firstn 4 (all_samples (ones 3) (ones 3) 2))
      = Some st /\
    Forall2 (appended 2) (Network.layers (Network.net st)) (Network.layers self') /\
    tr = Network.trace st ++ [EvSample; EvSample].
Proof.
  destruct (fit_trailing_samples_unapplied 1 1 toy_network (ones 3) (ones 3)
              None None 2 toy_network_ok (ones_ok 3) I)
    as (self' & tr & st & E & Er & _ & HF & Htr);
    [reflexivity | discriminate |].
  exists self', tr, st. auto.
Defined.

(** * Further properties of the layers and of the network *)

(** ** Sums *)

Lemma sum_map_ext {A : Type} (f g : A -> R) (l : list A) :
  (forall x, In x l -> f x = g x) -> Np.sum (map f l) = Np.sum (map g l).
Proof.
  intros H. f_equal. apply map_ext_in. exact H.
Qed.

Lemma sum_map_scale {A : Type} (c : R) (f : A -> R) (l : list A) :
  Np.sum (map (fun x => c * f x) l) = c * Np.sum (map f l).
Proof.
  unfold Np.sum. induction l as [|x l IH]; simpl; [ring | rewrite IH; ring].
Qed.

Lemma sum_map_minus {A : Type} (f g : A -> R) (l : list A) :
  Np.sum (map (fun x => f x - g x) l) = Np.sum (map f l) - Np.sum (map g l).
Proof.
  unfold Np.sum. induction l as [|x l IH]; simpl; [ring | rewrite IH; ring].
Qed.

(** A sum that picks one index. *)
Lemma sum_pick (f : nat -> R) (k n : nat) :
  forall s : nat,
    Np.sum (map (fun i => if (i =? k)%nat then f i else 0) (seq s n))
    = if ((s <=? k) && (k <? s + n))%nat then f k else 0.
Proof.
  unfold Np.sum. induction n as [|n IH]; intros s; simpl.
  - destruct (Nat.leb_spec s k), (Nat.ltb_spec k (s + 0)); simpl; auto; lia.
  - rewrite IH. destruct (Nat.eqb_spec s k) as [->|Hne].
    + destruct (Nat.leb_spec k k), (Nat.ltb_spec k (k + S n)),
        (Nat.leb_spec (S k) k); simpl; try lia; ring.
    + destruct (Nat.leb_spec s k), (Nat.ltb_spec k (s + S n)),
        (Nat.leb_spec (S s) k), (Nat.ltb_spec k (S s + n)); simpl; try lia; ring.
Qed.

Lemma list_as_map_nth (v : list R) :
  v = map (fun i => nth i v 0) (seq 0 (length v)).
Proof.
  induction v as [|x v IH]; simpl; [reflexivity|].
  f_equal. rewrite <- seq_shift, map_map. exact IH.
Qed.

Lemma inner_as_sum (u v : Np.ndarray1) (n : nat) :
  length u = n -> length v = n ->
  Np.inner u v = Np.sum (map (fun i => nth i u 0 * nth i v 0) (seq 0 n)).
Proof.
  intros Hu Hv. unfold Np.inner.
  rewrite (zip_with_seq Rmult 0 0), Hu, Hv, Nat.min_id. reflexivity.
Qed.

Lemma sum_one_hot (n k : nat) :
  (k < n)%nat -> Np.sum (Np.one_hot n k) = 1.
Proof.
  intros Hk. unfold Np.one_hot.
  rewrite (sum_pick (fun _ => 1) k n 0).
  destruct (Nat.leb_spec 0 k), (Nat.ltb_spec k (0 + n)); simpl; auto; lia.
Qed.

(** ** [np.argmax]: the first index of a largest entry *)

Lemma argmax_from_spec (v : Np.ndarray1) :
  forall (pre : Np.ndarray1) (best : nat) (bv : R),
    (best < length pre)%nat -> nth best pre 0 = bv ->
    (forall j, (j < length pre)%nat -> nth j pre 0 <= bv) ->
    (forall j, (j < best)%nat -> nth j pre 0 < bv) ->
    let k := Np.argmax_from best bv (length pre) v in
    (k < length (pre ++ v))%nat /\
    (forall j, (j < length (pre ++ v))%nat ->
               nth j (pre ++ v) 0 <= nth k (pre ++ v) 0) /\
    (forall j, (j < k)%nat -> nth j (pre ++ v) 0 < nth k (pre ++ v) 0).
Proof.
  induction v as [|x v IH]; intros pre best bv Hb Hbv Hle Hlt; simpl.
  - rewrite app_nil_r. rewrite Hbv. auto.
  - replace (pre ++ x :: v) with ((pre ++ [x]) ++ v) by (rewrite <- app_assoc; reflexivity).
    replace (S (length pre)) with (length (pre ++ [x])) by (rewrite length_app; simpl; lia).
    destruct (Rlt_dec bv x) as [Hx|Hx].
    + apply IH.
      * rewrite length_app; simpl; lia.
      * rewrite app_nth2 by lia. now rewrite Nat.sub_diag.
      * intros j Hj. rewrite length_app in Hj; simpl in Hj.
        destruct (Nat.eq_dec j (length pre)) as [->|Hne].
        -- rewrite app_nth2 by lia. rewrite Nat.sub_diag; simpl; lra.
        -- rewrite app_nth1 by lia. specialize (Hle j ltac:(lia)). lra.
      * intros j Hj. rewrite app_nth1 by lia. specialize (Hle j Hj). lra.
    + apply IH.
      * rewrite length_app; simpl; lia.
      * rewrite app_nth1 by lia. exact Hbv.
      * intros j Hj. rewrite length_app in Hj; simpl in Hj.
        destruct (Nat.eq_dec j (length pre)) as [->|Hne].
        -- rewrite app_nth2 by lia. rewrite Nat.sub_diag; simpl; lra.
        -- rewrite app_nth1 by lia. apply Hle; lia.
      * intros j Hj. rewrite app_nth1 by lia. apply Hlt; exact Hj.
Qed.

Lemma argmax_spec (v : Np.ndarray1) (k : nat) :
  Np.argmax v = Some k ->
  (k < length v)%nat /\
  (forall j, (j < length v)%nat -> nth j v 0 <= nth k v 0) /\
  (forall j, (j < k)%nat -> nth j v 0 < nth k v 0).
Proof.
  destruct v as [|x v]; simpl; [discriminate|]. intros E. injection E as <-.
  apply (argmax_from_spec v [x] 0 x); simpl; auto.
  - intros j Hj. assert (j = 0)%nat by lia. subst. lra.
  - intros j Hj. lia.
Qed.

(** ** [predict] *)

Lemma nth_one_hot (n k j : nat) :
  (j < n)%nat -> nth j (Np.one_hot n k) 0 = if (j =? k)%nat then 1 else 0.
Proof.
  intros Hj. unfold Np.one_hot. now rewrite (nth_map_seq _ 0 n 0 j Hj).
Qed.

Lemma predict_total (d d' : nat) (self : Network.t) (X : Np.ndarray1) :
  chain d (Network.layers self) d' -> d' <> 0%nat -> length X = d ->
  exists (self' : Network.t) (p : Np.ndarray1),
    Network.predict self X = Some (self', p).
Proof.
  intros Hc Hd HX.
  destruct (forward_total _ d d' X Hc HX) as (ls1 & y_hat & E & Hy & _).
  destruct (argmax_total y_hat) as (k & Ek & _); [lia|].
  unfold Network.predict, Network._forward_pass. rewrite E; cbn [bind].
  rewrite Ek. cbn [bind]. eauto.
Qed.

(** X1. On a network whose dimensions fit, [predict] returns a vector of
    the output width with a single entry equal to 1, all others 0, that
    sums to 1; it works before any [fit], and leaves the parameters and the
    gradient buffers of every layer as they were. *)
Theorem predict_one_hot :
  forall (d d' : nat) (self : Network.t) (X : Np.ndarray1),
    chain d (Network.layers self) d' -> d' <> 0%nat -> length X = d ->
    exists (self' : Network.t) (p : Np.ndarray1) (k : nat),
      Network.predict self X = Some (self', p) /\
      length p = d' /\ (k < d')%nat /\
      nth k p 0 = 1 /\
      (forall j, (j < d')%nat -> j <> k -> nth j p 0 = 0) /\
      Np.sum p = 1 /\
      map params (Network.layers self') = map params (Network.layers self).
Proof.
  intros d d' self X Hc Hd HX.
  destruct (forward_total _ d d' X Hc HX) as (ls1 & y_hat & E & Hy & _).
  destruct (argmax_total y_hat) as (k & Ek & Hk); [lia|].
  exists (Network.with_layers self ls1), (Np.one_hot (length y_hat) k), k.
  split.
  { unfold Network.predict, Network._forward_pass. rewrite E; cbn [bind].
    rewrite Ek. reflexivity. }
  split; [unfold Np.one_hot; rewrite length_map, length_seq; exact Hy|].
  split; [lia|].
  split; [rewrite nth_one_hot by lia; now rewrite Nat.eqb_refl|].
  split.
  { intros j Hj Hne. rewrite nth_one_hot by lia.
    destruct (Nat.eqb_spec j k); [contradiction | reflexivity]. }
  split; [apply sum_one_hot; exact Hk|].
  simpl. apply forget_params. eapply thread_forward_forgotten; eauto.
Qed.

Lemma toy_chain : chain 1 (Network.layers toy_network) 1.
Proof. apply toy_network_ok. Qed.

Lemma predict_one_hot_witness :
  exists (self' : Network.t) (p : Np.ndarray1),
    Network.predict toy_network [5] = Some (self', p) /\
    length p = 1%nat /\ Np.sum p = 1.
Proof.
  destruct (predict_one_hot 1 1 toy_network [5] toy_chain)
    as (self' & p & k & E & Hl & _ & _ & _ & Hs & _);
    [discriminate | reflexivity |].
  exists self', p. auto.
Defined.

(** X2. The entry [predict] sets to 1 is at the first index where the
    output of the forward pass is largest: no entry of the output exceeds
    the one at that index, and every earlier entry is strictly smaller. *)
Theorem predict_first_argmax :
  forall (self self' : Network.t) (X p : Np.ndarray1),
    Network.predict self X = Some (self', p) ->
    exists (y_hat : Np.ndarray1) (k : nat),
      Network._forward_pass self X = Some (self', y_hat) /\
      p = Np.one_hot (length y_hat) k /\
      (k < length y_hat)%nat /\
      (forall j, (j < length y_hat)%nat -> nth j y_hat 0 <= nth k y_hat 0) /\
      (forall j, (j < k)%nat -> nth j y_hat 0 < nth k y_hat 0).
Proof.
  intros self self' X p H. unfold Network.predict in H.
  unbind H. destruct a as [self1 y_hat]. unbind H. rename a into k. inv H.
  exists y_hat, k. split; [exact Ha|]. split; [reflexivity|].
  apply argmax_spec. exact Ha0.
Qed.

Lemma predict_first_argmax_witness :
  exists (self' : Network.t) (p y_hat : Np.ndarray1) (k : nat),
    Network.predict toy_network [5] = Some (self', p) /\
    Network._forward_pass toy_network [5] = Some (self', y_hat) /\
    p = Np.one_hot (length y_hat) k.
Proof.
  destruct (predict_total 1 1 toy_network [5] toy_chain)
    as (self' & p & E); [discriminate | reflexivity |].
  destruct (predict_first_argmax toy_network self' [5] p E)
    as (y_hat & k & Ef & Hp & _).
  exists self', p, y_hat, k. auto.
Defined.

(** X3. A prediction does not depend on the samples the network saw
    since its last parameter update: after [predict] on any input, [predict]
    on a second input returns what it would have returned on the network as
    it was. *)
Theorem predict_independent :
  forall (self self1 : Network.t) (X1 p1 X2 : Np.ndarray1),
    Network.predict self X1 = Some (self1, p1) ->
    option_map snd (Network.predict self1 X2)
    = option_map snd (Network.predict self X2).
Proof.
  intros self self1 X1 p1 X2 H. unfold Network.predict in H.
  unbind H. destruct a as [s y_hat]. unbind H. rename a into k. inv H.
  unfold Network._forward_pass in Ha. unbind Ha. destruct a as [ls1 o]. inv Ha.
  apply thread_forward_forgotten in Ha1.
  unfold Network.predict, Network._forward_pass. cbn [Network.layers Network.with_layers].
  rewrite <- (thread_forward_forget ls1), Ha1, thread_forward_forget.
  destruct (Network.thread Layer_forward_pass (Network.layers self) X2)
    as [[ls2 y2]|]; cbn [bind]; [|reflexivity].
  destruct (Np.argmax y2); reflexivity.
Qed.

Lemma predict_independent_witness :
  exists (self1 : Network.t) (p1 : Np.ndarray1),
    Network.predict toy_network [5] = Some (self1, p1) /\
    option_map snd (Network.predict self1 [7])
    = option_map snd (Network.predict toy_network [7]).
Proof.
  destruct (predict_total 1 1 toy_network [5] toy_chain)
    as (self' & p & E); [discriminate | reflexivity |].
  exists self', p. split; [exact E|].
  apply (predict_independent toy_network self' [5] p [7] E).
Defined.

(** ** [add_layer] *)

(** X4. The layer added last is the last to transform a tensor on the way
    forward and the first to receive the gradient on the way back: a forward
    pass through the extended network is a forward pass through the old one
    followed by the new layer's [forward_pass]; a backward pass is the new
    layer's [backward_pass] followed by a backward pass through the old
    one. *)
Theorem add_layer_passes :
  forall (self : Network.t) (layer : Layer) (X J : Np.ndarray1),
    Network._forward_pass (Network.add_layer self layer) X
    = ('(self1, out) <- Network._forward_pass self X ;;
       '(layer', out') <- Layer_forward_pass layer out ;;
       Some (Network.add_layer self1 layer', out'))
    /\
    Network._backward_pass (Network.add_layer self layer) J
    = ('(layer', J1) <- Layer_backward_pass layer J ;;
       self1 <- Network._backward_pass self J1 ;;
       Some (Network.add_layer self1 layer')).
Proof.
  intros self layer X J. split.
  - unfold Network._forward_pass, Network.add_layer.
    cbn [Network.layers Network.with_layers]. rewrite thread_app.
    destruct (Network.thread Layer_forward_pass (Network.layers self) X)
      as [[ls1 out]|]; cbn [bind]; [|reflexivity].
    cbn [Network.thread].
    destruct (Layer_forward_pass layer out) as [[l' out']|]; reflexivity.
  - unfold Network._backward_pass, Network.add_layer.
    cbn [Network.layers Network.with_layers]. rewrite rev_app_distr.
    cbn [rev app Network.thread].
    destruct (Layer_backward_pass layer J) as [[l' J1]|]; cbn [bind]; [|reflexivity].
    destruct (Network.thread Layer_backward_pass (rev (Network.layers self)) J1)
      as [[rls J2]|]; cbn [bind]; reflexivity.
Qed.

Lemma chain_app (l1 l2 : list Layer) :
  forall d dm d', chain d l1 dm -> chain dm l2 d' -> chain d (l1 ++ l2) d'.
Proof.
  induction l1 as [|[i|h|s] l1 IH]; intros d dm d' H1 H2; simpl in *.
  - subst. exact H2.
  - eauto.
  - destruct H1 as [Hh H1]. eauto.
  - destruct H1 as [Hd H1]. eauto.
Qed.

(** X5. Adding a Hidden layer whose input size is the output width of the
    network so far gives a network whose dimensions fit again: its forward
    pass returns on every input of the right width, with a result as wide as
    the new layer. *)
Theorem add_layer_hidden_fits :
  forall (d d1 : nat) (self : Network.t) (h : HiddenLayer.t) (X : Np.ndarray1),
    chain d (Network.layers self) d1 -> hidden_ok d1 h -> length X = d ->
    chain d (Network.layers (Network.add_layer self (LHidden h)))
          (HiddenLayer.size h) /\
    exists (self' : Network.t) (out : Np.ndarray1),
      Network._forward_pass (Network.add_layer self (LHidden h)) X
        = Some (self', out) /\
      length out = HiddenLayer.size h.
Proof.
  intros d d1 self h X Hc Hh HX.
  assert (Hc' : chain d (Network.layers (Network.add_layer self (LHidden h)))
                      (HiddenLayer.size h)).
  { simpl. apply (chain_app _ _ d d1); [exact Hc|]. simpl. auto. }
  split; [exact Hc'|].
  destruct (forward_total _ d _ X Hc' HX) as (ls' & out & E & Ho & _).
  unfold Network._forward_pass. rewrite E; cbn [bind]. eauto.
Qed.

Lemma add_layer_hidden_fits_witness :
  exists (self' : Network.t) (out : Np.ndarray1),
    Network._forward_pass (Network.add_layer toy_network (LHidden relu_unit)) [5]
      = Some (self', out) /\
    length out = 1%nat.
Proof.
  apply (add_layer_hidden_fits 1 1 toy_network relu_unit [5]
           toy_chain relu_unit_ok eq_refl).
Defined.

(** ** Hidden layer: what the passes compute *)

Lemma column_nth (A : Np.ndarray2) (i j : nat) :
  (i < Np.nrows A)%nat -> nth i (Np.column j A) 0 = entry A i j.
Proof.
  intros Hi. unfold Np.column, entry. now rewrite (nth_map_in _ _ []).
Qed.

Lemma column_length (A : Np.ndarray2) (j : nat) :
  length (Np.column j A) = Np.nrows A.
Proof. unfold Np.column, Np.nrows. now rewrite length_map. Qed.

(** X6. [HiddenLayer.forward_pass] raises when the input does not have
    [input_size] entries; otherwise it stores the input and the output and
    returns [output[j] = activation(sum_i X[i] * W[i][j] + b[j])], a vector
    of [size] entries. *)
Theorem hidden_forward_pass_affine :
  forall (n : nat) (self : HiddenLayer.t) (X : Np.ndarray1),
    hidden_ok n self ->
    (length X <> n -> HiddenLayer.forward_pass self X = None) /\
    (length X = n ->
     exists (self' : HiddenLayer.t) (out : Np.ndarray1),
       HiddenLayer.forward_pass self X = Some (self', out) /\
       HiddenLayer.input self' = Some X /\
       HiddenLayer.output self' = Some out /\
       length out = HiddenLayer.size self /\
       forall j, (j < HiddenLayer.size self)%nat ->
         nth j out 0
         = Activation.call (HiddenLayer._activation self)
             (Np.sum (map (fun i => nth i X 0 * entry (HiddenLayer.W self) i j)
                          (seq 0 n))
              + nth j (HiddenLayer.b self) 0)).
Proof.
  intros n self X (HW & Hb & _). pose proof HW as (Hn & Hm & _). split.
  - intros HX. unfold HiddenLayer.forward_pass, Np.dot_vm. rewrite Hn.
    destruct (Nat.eqb_spec (length X) n); [contradiction | reflexivity].
  - intros HX. unfold HiddenLayer.forward_pass, Np.dot_vm, Np.add.
    rewrite HX, Hn, Nat.eqb_refl; cbn [bind].
    rewrite length_map, length_seq, Hm, Hb, Nat.eqb_refl; cbn [bind].
    do 2 eexists. split; [reflexivity|]. cbn [HiddenLayer.input HiddenLayer.output].
    split; [reflexivity|]. split; [reflexivity|].
    split; [rewrite length_map, zip_with_length, length_map, length_seq, Hb; lia|].
    intros j Hj.
    rewrite (nth_map_in _ _ 0)
      by (rewrite zip_with_length, length_map, length_seq, Hb; lia).
    f_equal.
    rewrite (nth_zip_with Rplus 0 0 0) by (rewrite ?length_map, ?length_seq; lia).
    f_equal. rewrite (nth_map_seq _ 0 _ 0 j Hj). cbn [Nat.add].
    rewrite (inner_as_sum _ _ n HX) by (rewrite column_length; exact Hn).
    apply sum_map_ext. intros i Hi. apply in_seq in Hi.
    rewrite column_nth by lia. reflexivity.
Qed.

Lemma hidden_forward_pass_affine_witness :
  HiddenLayer.forward_pass relu_unit [1; 2] = None /\
  exists (self' : HiddenLayer.t) (out : Np.ndarray1),
    HiddenLayer.forward_pass relu_unit [5] = Some (self', out) /\
    length out = 1%nat.
Proof.
  destruct (hidden_forward_pass_affine 1 relu_unit [1; 2] relu_unit_ok) as [H1 _].
  destruct (hidden_forward_pass_affine 1 relu_unit [5] relu_unit_ok) as [_ H2].
  split; [apply H1; discriminate|].
  destruct (H2 eq_refl) as (self' & out & E & _ & _ & Hl & _).
  exists self', out. auto.
Defined.

Lemma diag_gradient_entry (f : R -> R) (J : Np.ndarray1) (j k : nat) :
  (j < length J)%nat -> (k < length J)%nat ->
  entry (Np.map2d f (Np.diag J)) j k
  = f (if (j =? k)%nat then nth j J 0 else 0).
Proof.
  intros Hj Hk. unfold entry, Np.map2d, Np.diag; cbn [Np.rows].
  rewrite (nth_map_in _ _ []) by (rewrite length_map, length_seq; lia).
  rewrite (nth_map_seq _ [] _ 0 j Hj). cbn [Nat.add].
  rewrite (nth_map_in _ _ 0) by (rewrite length_map, length_seq; lia).
  now rewrite (nth_map_seq _ 0 _ 0 k Hk).
Qed.

Lemma diag_gradient_diagonal (f : R -> R) (J : Np.ndarray1) (j : nat) :
  (j < length J)%nat ->
  nth j (Np.diagonal (Np.map2d f (Np.diag J))) 0 = f (nth j J 0).
Proof.
  intros Hj. destruct (diag_gradient_shape f J) as (Hr & Hc & _).
  unfold Np.diagonal. rewrite Hr, Hc, Nat.min_id.
  rewrite (nth_map_seq _ 0 _ 0 j Hj). cbn [Nat.add].
  change (nth j (nth j (Np.rows (Np.map2d f (Np.diag J))) []) 0)
    with (entry (Np.map2d f (Np.diag J)) j j).
  rewrite diag_gradient_entry by assumption. now rewrite Nat.eqb_refl.
Qed.

Lemma hidden_backward_entries (n : nat) (self : HiddenLayer.t)
      (x J : Np.ndarray1) :
  hidden_ok n self ->
  HiddenLayer.input self = Some x -> length x = n ->
  length J = HiddenLayer.size self ->
  exists (self' : HiddenLayer.t) (J' : Np.ndarray1)
         (G : Np.ndarray2) (v : Np.ndarray1),
    HiddenLayer.backward_pass self J = Some (self', J') /\
    HiddenLayer.W_gradients self' = HiddenLayer.W_gradients self ++ [G] /\
    HiddenLayer.b_gradients self' = HiddenLayer.b_gradients self ++ [v] /\
    (forall i j, (i < n)%nat -> (j < HiddenLayer.size self)%nat ->
       entry G i j
       = nth j J 0
         * (nth i x 0
            * Activation.gradient (HiddenLayer._activation self) (nth j J 0))) /\
    (forall j, (j < HiddenLayer.size self)%nat ->
       nth j v 0
       = Activation.gradient (HiddenLayer._activation self) (nth j J 0)).
Proof.
  intros (HW & Hb & HWg & Hbg) Hin Hx HJ. pose proof HW as (Hn & Hm & _).
  destruct (diag_gradient_shape
              (Activation.gradient (HiddenLayer._activation self)) J)
    as (Hr & Hc & Hd).
  assert (Hrows : Np.nrows (Np.transpose (HiddenLayer.W self)) = HiddenLayer.size self).
  { unfold Np.nrows, Np.transpose; cbn [Np.rows].
    now rewrite length_map, length_seq. }
  unfold HiddenLayer.backward_pass, Np.dot_mm. rewrite Hc, Hrows, HJ, Nat.eqb_refl.
  cbn [bind]. rewrite Hin; cbn [bind].
  unfold Np.mul_rows. cbn [Np.ncols Np.outer]. rewrite Hd, HJ, Nat.eqb_refl.
  cbn [bind].
  unfold Np.dot_vm, Np.nrows. cbn [Np.rows Np.ncols Np.map2d Np.diag].
  rewrite !length_map, length_seq, HJ, Nat.eqb_refl. cbn [bind].
  do 4 eexists. split; [reflexivity|].
  cbn [HiddenLayer.W_gradients HiddenLayer.b_gradients].
  split; [reflexivity|]. split; [reflexivity|]. split.
  + intros i j Hi Hj. unfold entry; cbn [Np.rows Np.outer].
    rewrite (nth_map_in _ _ []) by (rewrite length_map; lia).
    rewrite (nth_map_in _ _ 0) by lia.
    rewrite (nth_zip_with Rmult 0 0 0)
      by (rewrite ?length_map; try rewrite Hd; lia).
    rewrite (nth_map_in _ _ 0) by (rewrite Hd; lia).
    rewrite diag_gradient_diagonal by lia. reflexivity.
  + intros j Hj. apply diag_gradient_diagonal. lia.
Qed.

(** X7. [HiddenLayer.backward_pass] raises when no forward pass stored an
    input or when the upstream gradient does not have [size] entries.
    Otherwise it appends to [W_gradients] the matrix
    [G[i][j] = J[j] * (input[i] * gradient(J[j]))] and to [b_gradients] the
    vector [v[j] = gradient(J[j])], where [gradient] is the activation's
    derivative and [J] the upstream gradient. *)
Theorem hidden_backward_pass_gradients :
  forall (n : nat) (self : HiddenLayer.t) (J : Np.ndarray1),
    hidden_ok n self ->
    (HiddenLayer.input self = None -> HiddenLayer.backward_pass self J = None) /\
    (length J <> HiddenLayer.size self ->
     HiddenLayer.backward_pass self J = None) /\
    (forall x, HiddenLayer.input self = Some x -> length x = n ->
     length J = HiddenLayer.size self ->
     exists (self' : HiddenLayer.t) (J' : Np.ndarray1)
            (G : Np.ndarray2) (v : Np.ndarray1),
       HiddenLayer.backward_pass self J = Some (self', J') /\
       HiddenLayer.W_gradients self' = HiddenLayer.W_gradients self ++ [G] /\
       HiddenLayer.b_gradients self' = HiddenLayer.b_gradients self ++ [v] /\
       (forall i j, (i < n)%nat -> (j < HiddenLayer.size self)%nat ->
          entry G i j
          = nth j J 0
            * (nth i x 0
               * Activation.gradient (HiddenLayer._activation self) (nth j J 0))) /\
       (forall j, (j < HiddenLayer.size self)%nat ->
          nth j v 0
          = Activation.gradient (HiddenLayer._activation self) (nth j J 0))).
Proof.
  intros n self J Hok. pose proof Hok as (HW & _). pose proof HW as (Hn & Hm & _).
  destruct (diag_gradient_shape
              (Activation.gradient (HiddenLayer._activation self)) J)
    as (Hr & Hc & Hd).
  assert (Hrows : Np.nrows (Np.transpose (HiddenLayer.W self)) = HiddenLayer.size self).
  { unfold Np.nrows, Np.transpose; cbn [Np.rows].
    now rewrite length_map, length_seq. }
  split; [|split].
  - intros Hin. unfold HiddenLayer.backward_pass.
    destruct (Np.dot_mm _ _); cbn [bind]; [|reflexivity]. now rewrite Hin.
  - intros HJ. unfold HiddenLayer.backward_pass, Np.dot_mm. rewrite Hc, Hrows.
    destruct (Nat.eqb_spec (length J) (HiddenLayer.size self));
      [contradiction | reflexivity].
  - intros x Hin Hx HJ. apply (hidden_backward_entries n self x J); assumption.
Qed.

Lemma hidden_backward_pass_gradients_witness :
  HiddenLayer.backward_pass relu_unit [3] = None /\
  HiddenLayer.backward_pass relu_unit_forwarded [3; 4] = None /\
  exists (self' : HiddenLayer.t) (J' : Np.ndarray1),
    HiddenLayer.backward_pass relu_unit_forwarded [3] = Some (self', J').
Proof.
  destruct (hidden_backward_pass_gradients 1 relu_unit [3] relu_unit_ok)
    as (H1 & _ & _).
  assert (Hok : hidden_ok 1 relu_unit_forwarded) by exact relu_unit_ok.
  destruct (hidden_backward_pass_gradients 1 relu_unit_forwarded [3; 4] Hok)
    as (_ & H2 & _).
  destruct (hidden_backward_pass_gradients 1 relu_unit_forwarded [3] Hok)
    as (_ & _ & H3).
  split; [apply H1; reflexivity|]. split; [apply H2; discriminate|].
  destruct (H3 [1] eq_refl eq_refl eq_refl) as (self' & J' & _ & _ & E & _).
  exists self', J'. exact E.
Defined.

(** ** Products of arrays, entry by entry *)

Lemma dot_vm_nth (v r : Np.ndarray1) (A : Np.ndarray2) :
  Np.dot_vm v A = Some r ->
  length r = Np.ncols A /\
  forall i, (i < Np.ncols A)%nat ->
    nth i r 0
    = Np.sum (map (fun j => nth j v 0 * entry A j i) (seq 0 (Np.nrows A))).
Proof.
  unfold Np.dot_vm. destruct (Nat.eqb_spec (length v) (Np.nrows A)) as [Hv|];
    [|discriminate].
  intros E. injection E as <-. split; [now rewrite length_map, length_seq|].
  intros i Hi. rewrite (nth_map_seq _ 0 _ 0 i Hi). cbn [Nat.add].
  rewrite (inner_as_sum _ _ (Np.nrows A) Hv (column_length A i)).
  apply sum_map_ext. intros j Hj. apply in_seq in Hj.
  rewrite column_nth by lia. reflexivity.
Qed.

Lemma dot_mm_entry (A B P : Np.ndarray2) :
  Np.well_formed A -> Np.dot_mm A B = Some P ->
  Np.nrows P = Np.nrows A /\ Np.ncols P = Np.ncols B /\
  forall j i, (j < Np.nrows A)%nat -> (i < Np.ncols B)%nat ->
    entry P j i
    = Np.sum (map (fun k => entry A j k * entry B k i) (seq 0 (Np.ncols A))).
Proof.
  intros Hwf. unfold Np.dot_mm.
  destruct (Nat.eqb_spec (Np.ncols A) (Np.nrows B)) as [HAB|]; [|discriminate].
  intros E. injection E as <-. unfold Np.nrows at 1. cbn [Np.rows Np.ncols].
  split; [now rewrite length_map|]. split; [reflexivity|].
  intros j i Hj Hi. unfold entry at 1. cbn [Np.rows].
  rewrite (nth_map_in (A := Np.ndarray1) _ _ []) by exact Hj.
  rewrite (nth_map_seq _ 0 _ 0 i Hi). cbn [Nat.add].
  assert (Hrow : length (nth j (Np.rows A) []) = Np.ncols A).
  { unfold Np.well_formed in Hwf. rewrite Forall_forall in Hwf.
    apply Hwf, nth_In. exact Hj. }
  rewrite (inner_as_sum _ _ (Np.ncols A) Hrow)
    by (rewrite column_length; auto).
  apply sum_map_ext. intros k Hk. apply in_seq in Hk.
  rewrite column_nth by lia. reflexivity.
Qed.

Lemma transpose_entry (A : Np.ndarray2) (k i : nat) :
  (k < Np.ncols A)%nat -> (i < Np.nrows A)%nat ->
  entry (Np.transpose A) k i = entry A i k.
Proof.
  intros Hk Hi. unfold entry at 1, Np.transpose. cbn [Np.rows].
  rewrite (nth_map_seq (A := Np.ndarray1) _ [] _ 0 k Hk). cbn [Nat.add].
  apply column_nth. exact Hi.
Qed.

Lemma diag_gradient_wf (f : R -> R) (J : Np.ndarray1) :
  Np.well_formed (Np.map2d f (Np.diag J)).
Proof.
  unfold Np.well_formed, Np.map2d, Np.diag. cbn [Np.rows Np.ncols].
  apply Forall_map, Forall_map, Forall_forall. intros i _.
  now rewrite !length_map, length_seq.
Qed.

(** X8. The gradient [HiddenLayer.backward_pass] hands to the previous
    layer has [input_size] entries,
    [J'[i] = sum_j J[j] * sum_k gradient(J[j] if j = k else 0) * W[i][k]]:
    the derivative is applied to every entry of [np.diag(J)], the zeros
    off the diagonal included.  When the derivative vanishes at 0 (as for
    Relu) this is [J'[i] = sum_j J[j] * gradient(J[j]) * W[i][j]]. *)
Theorem hidden_backward_pass_downstream :
  forall (n : nat) (self : HiddenLayer.t) (x J : Np.ndarray1),
    hidden_ok n self ->
    HiddenLayer.input self = Some x -> length x = n ->
    length J = HiddenLayer.size self ->
    exists (self' : HiddenLayer.t) (J' : Np.ndarray1),
      HiddenLayer.backward_pass self J = Some (self', J') /\
      length J' = n /\
      (forall i, (i < n)%nat ->
         nth i J' 0
         = Np.sum
             (map (fun j =>
                     nth j J 0
                     * Np.sum
                         (map (fun k =>
                                 Activation.gradient (HiddenLayer._activation self)
                                   (if (j =? k)%nat then nth j J 0 else 0)
                                 * entry (HiddenLayer.W self) i k)
                              (seq 0 (HiddenLayer.size self))))
                  (seq 0 (HiddenLayer.size self)))) /\
      (Activation.gradient (HiddenLayer._activation self) 0 = 0 ->
       forall i, (i < n)%nat ->
         nth i J' 0
         = Np.sum
             (map (fun j =>
                     nth j J 0
                     * (Activation.gradient (HiddenLayer._activation self) (nth j J 0)
                        * entry (HiddenLayer.W self) i j))
                  (seq 0 (HiddenLayer.size self)))).
Proof.
  intros n self x J Hok Hin Hx HJ.
  destruct (hidden_backward_total n self x J Hok Hin Hx HJ)
    as (self' & J' & E & HJ' & _).
  destruct Hok as (HW & _). pose proof HW as (Hn & Hm & _).
  set (dact := Activation.gradient (HiddenLayer._activation self)) in *.
  destruct (diag_gradient_shape dact J) as (Hr & Hc & _).
  pose proof E as E0. unfold HiddenLayer.backward_pass in E0.
  unbind E0. rename a into P. rename Ha into EP.
  unbind E0. unbind E0. unbind E0. rename a1 into Jd. rename Ha1 into EJ.
  injection E0 as _ <-.
  fold dact in EP.
  destruct (dot_mm_entry _ _ P (diag_gradient_wf dact J) EP) as (HPr & HPc & HPe).
  destruct (dot_vm_nth _ _ _ EJ) as (_ & HJd).
  assert (HPc' : Np.ncols P = n).
  { rewrite HPc. unfold Np.transpose; cbn [Np.ncols]. exact Hn. }
  assert (Hgen : forall i, (i < n)%nat ->
            nth i Jd 0
            = Np.sum
                (map (fun j =>
                        nth j J 0
                        * Np.sum
                            (map (fun k =>
                                    dact (if (j =? k)%nat then nth j J 0 else 0)
                                    * entry (HiddenLayer.W self) i k)
                                 (seq 0 (HiddenLayer.size self))))
                     (seq 0 (HiddenLayer.size self)))).
  { intros i Hi. rewrite HJd by lia. rewrite HPr, Hr, HJ.
    apply sum_map_ext. intros j Hj. apply in_seq in Hj. f_equal.
    rewrite HPe; [|rewrite Hr; lia|unfold Np.transpose; cbn [Np.ncols]; lia].
    rewrite Hc, HJ.
    apply sum_map_ext. intros k Hk. apply in_seq in Hk.
    rewrite diag_gradient_entry by lia.
    rewrite transpose_entry by lia. reflexivity. }
  exists self', Jd. split; [exact E|]. split; [exact HJ'|]. split; [exact Hgen|].
  intros H0 i Hi. rewrite Hgen by exact Hi.
  apply sum_map_ext. intros j Hj. apply in_seq in Hj. f_equal.
  rewrite (sum_map_ext _
             (fun k => if (k =? j)%nat
                       then dact (nth j J 0) * entry (HiddenLayer.W self) i k
                       else 0)).
  - rewrite (sum_pick (fun k => dact (nth j J 0) * entry (HiddenLayer.W self) i k)
               j (HiddenLayer.size self) 0).
    destruct (Nat.leb_spec 0 j), (Nat.ltb_spec j (0 + HiddenLayer.size self));
      simpl; try lia. reflexivity.
  - intros k _. rewrite (Nat.eqb_sym k j).
    destruct (Nat.eqb_spec j k); [reflexivity | rewrite H0; ring].
Qed.

Lemma hidden_backward_pass_downstream_witness :
  exists (self' : HiddenLayer.t) (J' : Np.ndarray1),
    HiddenLayer.backward_pass relu_unit_forwarded [3] = Some (self', J') /\
    length J' = 1%nat.
Proof.
  destruct (hidden_backward_pass_downstream 1 relu_unit_forwarded [1] [3]
              relu_unit_ok eq_refl eq_refl eq_refl)
    as (self' & J' & E & Hl & _).
  exists self', J'. auto.
Defined.

(** ** Softmax layer: further properties *)

Lemma softmax_backward_sum (self : SoftmaxLayer.t) (out J : Np.ndarray1) :
  SoftmaxLayer.output self = Some out -> length J = length out ->
  exists J' : Np.ndarray1,
    SoftmaxLayer.backward_pass self J = Some (self, J') /\
    length J' = length out /\
    forall j, (j < length out)%nat ->
      nth j J' 0
      = Np.sum (map (fun i => nth i J 0 * entry (SoftmaxLayer.jacobian out) i j)
                    (seq 0 (length out))).
Proof.
  intros Hout HJ.
  destruct (softmax_backward_total self out J Hout HJ) as (J' & E & HJ').
  exists J'. split; [exact E|]. split; [exact HJ'|].
  unfold SoftmaxLayer.backward_pass in E. rewrite Hout in E. cbn [bind] in E.
  unbind E. injection E as <-.
  destruct (dot_vm_nth _ _ _ Ha) as (_ & Hn). intros j Hj.
  rewrite Hn by (simpl; lia).
  unfold Np.nrows. simpl. now rewrite length_map, length_seq.
Qed.

(** X10. [SoftmaxLayer.backward_pass] raises when no forward pass stored
    an output or when the gradient does not have the length of the stored
    output.  Otherwise entry [j] of the gradient it returns is
    [output[j] * (J[j] - sum_i J[i] * output[i])], and when the stored
    output sums to 1 the entries of the returned gradient sum to 0. *)
Theorem softmax_backward_pass_closed_form :
  forall (self : SoftmaxLayer.t) (J : Np.ndarray1),
    (SoftmaxLayer.output self = None ->
     SoftmaxLayer.backward_pass self J = None) /\
    (forall out, SoftmaxLayer.output self = Some out ->
       length J <> length out -> SoftmaxLayer.backward_pass self J = None) /\
    (forall out, SoftmaxLayer.output self = Some out ->
       length J = length out ->
       exists J' : Np.ndarray1,
         SoftmaxLayer.backward_pass self J = Some (self, J') /\
         (forall j, (j < length out)%nat ->
            nth j J' 0 = nth j out 0 * (nth j J 0 - Np.inner J out)) /\
         (Np.sum out = 1 -> Np.sum J' = 0)).
Proof.
  intros self J. split; [|split].
  - intros H. unfold SoftmaxLayer.backward_pass. now rewrite H.
  - intros out H HJ. unfold SoftmaxLayer.backward_pass, Np.dot_vm, Np.nrows.
    rewrite H. simpl. rewrite length_map, length_seq.
    destruct (Nat.eqb_spec (length J) (length out)); [contradiction | reflexivity].
  - intros out Hout HJ.
    destruct (softmax_backward_sum self out J Hout HJ) as (J' & E & HJ' & Hn).
    assert (Hcf : forall j, (j < length out)%nat ->
               nth j J' 0 = nth j out 0 * (nth j J 0 - Np.inner J out)).
    { intros j Hj. rewrite Hn by exact Hj.
      rewrite (inner_as_sum J out (length out) HJ eq_refl).
      rewrite (sum_map_ext _
                 (fun i => (if (i =? j)%nat then nth i J 0 * nth i out 0 else 0)
                           - nth j out 0 * (nth i J 0 * nth i out 0))).
      - rewrite sum_map_minus, sum_map_scale.
        rewrite (sum_pick (fun i => nth i J 0 * nth i out 0) j (length out) 0).
        destruct (Nat.leb_spec 0 j), (Nat.ltb_spec j (0 + length out));
          simpl; try lia. ring.
      - intros i Hi. apply in_seq in Hi.
        unfold entry. rewrite jacobian_entry by lia.
        destruct (Nat.eqb_spec i j); ring. }
    exists J'. split; [exact E|]. split; [exact Hcf|].
    intros Hone. rewrite (list_as_map_nth J'), HJ'.
    rewrite (sum_map_ext _
               (fun j => nth j J 0 * nth j out 0
                         - Np.inner J out * nth j out 0)).
    + rewrite sum_map_minus, sum_map_scale.
      rewrite <- (inner_as_sum J out (length out) HJ eq_refl).
      rewrite <- (list_as_map_nth out), Hone. ring.
    + intros j Hj. apply in_seq in Hj. rewrite Hcf by lia. ring.
Qed.

Lemma softmax_backward_pass_closed_form_witness :
  SoftmaxLayer.backward_pass (SoftmaxLayer.mk 2 None None) [1; 0] = None /\
  SoftmaxLayer.backward_pass (SoftmaxLayer.mk 2 None (Some [1/2; 1/2])) [1] = None /\
  exists J' : Np.ndarray1,
    SoftmaxLayer.backward_pass (SoftmaxLayer.mk 2 None (Some [1/2; 1/2])) [1; 0]
      = Some (SoftmaxLayer.mk 2 None (Some [1/2; 1/2]), J') /\
    Np.sum J' = 0.
Proof.
  destruct (softmax_backward_pass_closed_form (SoftmaxLayer.mk 2 None None) [1; 0])
    as (H1 & _).
  destruct (softmax_backward_pass_closed_form
              (SoftmaxLayer.mk 2 None (Some [1/2; 1/2])) [1]) as (_ & H2 & _).
  destruct (softmax_backward_pass_closed_form
              (SoftmaxLayer.mk 2 None (Some [1/2; 1/2])) [1; 0]) as (_ & _ & H3).
  split; [apply H1; reflexivity|].
  split; [apply (H2 [1/2; 1/2]); [reflexivity | discriminate]|].
  destruct (H3 [1/2; 1/2] eq_refl eq_refl) as (J' & E & _ & Hs).
  exists J'. split; [exact E|]. apply Hs. unfold Np.sum; simpl. lra.
Defined.

(** ** [fit] at the edges *)

(** X11. With no epoch to run [fit] only clears the four histories.  With
    at least one epoch and no training sample (no input, or no label to
    pair the inputs with) it raises: the loop variable [i] is read for the
    mean loss without ever having been bound. *)
Theorem fit_without_samples :
  forall (self : Network.t) (X_train y_train : list Np.ndarray1)
         (X_val y_val : option (list Np.ndarray1)) (epochs : nat),
    Network.fit self X_train y_train X_val y_val 0
      = Some (Network.clear_history self, []) /\
    (X_train = [] \/ y_train = [] ->
     Network.fit self X_train y_train X_val y_val (S epochs) = None).
Proof.
  intros self X y Xv yv epochs. split; [reflexivity|].
  intros H.
  assert (Hc : combine X y = []).
  { destruct H as [-> | ->]; [reflexivity | apply combine_nil]. }
  unfold Network.fit. cbn [Network.fit_epochs]. unfold Network.fit_epoch.
  rewrite Hc. reflexivity.
Qed.

Lemma fit_without_samples_witness :
  Network.fit toy_network [] [] None None 3 = None.
Proof.
  apply (fit_without_samples toy_network [] [] None None 2). left. reflexivity.
Defined.



(** ** The gradient buffers across a [fit] call *)

Lemma appended_buffers (k p : nat) (l l' : Layer) :
  appended k l l' -> buffers_hold p l -> buffers_hold (p + k) l'.
Proof.
  destruct l as [i|h|s], l' as [i'|h'|s']; simpl; try tauto.
  intros (_ & _ & Gs & vs & HG & Hv & HlG & Hlv) [H1 H2].
  rewrite HG, Hv, !length_app. lia.
Qed.

Lemma Forall2_appended_buffers (k p : nat) (ls ls' : list Layer) :
  Forall2 (appended k) ls ls' -> Forall (buffers_hold p) ls ->
  Forall (buffers_hold (p + k)) ls'.
Proof.
  induction 1 as [|l l' ls ls' Hl Hls IH]; intros HF; constructor; inv HF.
  - eapply appended_buffers; eauto.
  - auto.
Qed.

Lemma update_layers_empties (ls : list Layer) :
  forall ls', Network.update_layers ls = Some ls' -> Forall (buffers_hold 0) ls'.
Proof.
  induction ls as [|[i|h|s] ls IH]; intros ls' H; simpl in H.
  - inv H. constructor.
  - unbind H. inv H. constructor; [exact I | auto].
  - unbind H. unbind H. inv H. constructor; [|auto].
    apply hidden_update_frame in Ha. simpl.
    destruct Ha as (_ & _ & _ & _ & _ & -> & ->). auto.
  - unbind H. inv H. constructor; [exact I | auto].
Qed.

Lemma trailing_step (bs : Z) (k : nat) :
  (0 < bs)%Z ->
  trailing bs (S k)
  = if (Z.of_nat (S k) mod bs =? 0)%Z then 0%nat else S (trailing bs k).
Proof.
  intros Hbs. destruct (Z.eqb_spec (Z.of_nat (S k) mod bs) 0) as [E|E].
  - unfold trailing. now rewrite E.
  - destruct (trailing_bounds bs k Hbs) as [_ Hr].
    destruct (trailing_bounds bs (S k) Hbs) as [_ Hr'].
    pose proof (Z.mod_pos_bound (Z.of_nat k) bs Hbs) as [H0 H1].
    pose proof (Z.div_mod (Z.of_nat k) bs ltac:(lia)) as Hdm.
    assert (Hlt : (Z.of_nat k mod bs + 1 < bs)%Z).
    { destruct (Z.eq_dec (Z.of_nat k mod bs + 1) bs) as [Heq|]; [|lia].
      exfalso. apply E.
      replace (Z.of_nat (S k)) with ((Z.of_nat k / bs + 1) * bs)%Z by lia.
      apply Z_mod_mult. }
    assert (Hmod : (Z.of_nat (S k) mod bs = Z.of_nat k mod bs + 1)%Z).
    { symmetry. apply (Z.mod_unique _ _ (Z.of_nat k / bs)); lia. }
    lia.
Qed.

Lemma loop_layers_buffers (L : Loss.t) (bs : Z)
      (samples : list (Np.ndarray1 * Np.ndarray1)) :
  (0 < bs)%Z ->
  forall (k : nat) (ls ls' : list Layer) (tr : list event),
    Forall (buffers_hold (trailing bs k)) ls ->
    loop_layers L bs k samples ls = Some (ls', tr) ->
    Forall (buffers_hold (trailing bs (k + length samples))) ls'.
Proof.
  intros Hbs. induction samples as [|[X y] samples IH]; intros k ls ls' tr HF H.
  - simpl in H. inv H. simpl. now rewrite Nat.add_0_r.
  - cbn [loop_layers] in H. unbind H. rename a into ls1.
    destruct (bs =? 0)%Z; [discriminate|].
    apply sample_layers_appended in Ha.
    pose proof (Forall2_appended_buffers 1 _ _ _ Ha HF) as HF1.
    cbn [length]. replace (k + S (length samples))%nat
      with (S k + length samples)%nat by lia.
    pose proof (trailing_step bs k Hbs) as Hstep.
    destruct (Z.of_nat (S k) mod bs =? 0)%Z.
    + unbind H. unbind H. destruct a0 as [ls3 tr3]. inv H.
      apply (IH (S k) a ls' tr3); [|exact Ha1].
      rewrite Hstep. eapply update_layers_empties; eauto.
    + unbind H. destruct a as [ls3 tr3]. inv H.
      apply (IH (S k) ls1 ls' tr3); [|exact Ha0].
      rewrite Hstep. now rewrite Nat.add_1_r in HF1.
Qed.

Lemma buffers_hold_forget (p : nat) (ls ls' : list Layer) :
  map forget ls' = map forget ls ->
  Forall (buffers_hold p) ls -> Forall (buffers_hold p) ls'.
Proof.
  revert ls'. induction ls as [|l ls IH]; intros [|l' ls'] Hf HF;
    simpl in Hf; try discriminate; constructor; inv HF.
  - injection Hf as Hf _.
    destruct l as [i|h|s], l' as [i'|h'|s']; simpl in *; try discriminate; auto.
    injection Hf as _ _ _ _ _ HG Hv. now rewrite HG, Hv.
  - injection Hf as _ Hf. auto.
Qed.

(** X13. When every Hidden layer enters [fit] with empty gradient buffers
    and [batch_size] is positive, every Hidden layer leaves it with exactly
    [(epochs * len(X_train)) % batch_size] entries in each buffer: none
    when the total number of samples is a multiple of the batch size,
    otherwise the gradients of the last incomplete batch, which [fit] does
    not clear and a later [fit] call will find. *)
Theorem fit_leaves_incomplete_batch :
  forall (d d' : nat) (self : Network.t) (X_train y_train : list Np.ndarray1)
         (X_val y_val : option (list Np.ndarray1)) (epochs : nat),
    net_ok d d' self -> data_ok d d' X_train y_train -> X_train <> [] ->
    val_ok d d' X_val y_val ->
    (0 < Network.batch_size self)%Z ->
    Forall (buffers_hold 0) (Network.layers self) ->
    exists (self' : Network.t) (tr : list event),
      Network.fit self X_train y_train X_val y_val epochs = Some (self', tr) /\
      Forall (buffers_hold (trailing (Network.batch_size self)
                                     (epochs * length X_train)))
             (Network.layers self').
Proof.
  intros d d' self X y Xv yv epochs Hok Hdata HX Hval Hbs HF.
  destruct (fit_total d d' self X y Xv yv epochs Hok Hdata HX Hval)
    as (self' & ls_f & tr & E & El & Hf & _).
  exists self', tr. split; [exact E|].
  apply (buffers_hold_forget _ ls_f); [exact Hf|].
  apply (loop_layers_buffers _ _ _ Hbs) in El.
  - now rewrite (all_samples_length _ _ _ (proj1 Hdata)) in El.
  - exact HF.
Qed.

Lemma toy_buffers_empty : Forall (buffers_hold 0) (Network.layers toy_network).
Proof. repeat constructor. Qed.

Lemma fit_leaves_incomplete_batch_witness :
  exists (self' : Network.t) (tr : list event),
    Network.fit toy_network (ones 3) (ones 3) None None 2 = Some (self', tr) /\
    Forall (buffers_hold 2) (Network.layers self').
Proof.
  apply (fit_leaves_incomplete_batch 1 1 toy_network (ones 3) (ones 3)
           None None 2 toy_network_ok (ones_ok 3));
    [discriminate | exact I | reflexivity | exact toy_buffers_empty].
Defined.

(** ** The recorded accuracies *)

Lemma forward_pass_inv (self self' : Network.t) (X out : Np.ndarray1) :
  Network._forward_pass self X = Some (self', out) ->
  exists ls', self' = Network.with_layers self ls'.
Proof.
  unfold Network._forward_pass. intros H. unbind H. destruct a as [ls o].
  inv H. eexists; reflexivity.
Qed.

Lemma backward_pass_inv (self self' : Network.t) (J : Np.ndarray1) :
  Network._backward_pass self J = Some self' ->
  exists ls', self' = Network.with_layers self ls'.
Proof.
  unfold Network._backward_pass. intros H. unbind H. destruct a as [ls o].
  inv H. eexists; reflexivity.
Qed.

Lemma train_sample_inv (self self' : Network.t) (agg agg' : R) (nc nc' : nat)
      (X y : Np.ndarray1) :
  Network.train_sample self agg nc X y = Some (self', agg', nc') ->
  (exists ls', self' = Network.with_layers self ls') /\ (nc' <= S nc)%nat.
Proof.
  unfold Network.train_sample. intros H.
  unbind H. destruct a as [self1 y_hat]. rename Ha into Ef.
  unbind H. rename a into k. unbind H. rename a into self2. rename Ha0 into Eb.
  inv H.
  apply forward_pass_inv in Ef. destruct Ef as (ls1 & ->).
  apply backward_pass_inv in Eb. destruct Eb as (ls2 & ->).
  split; [eexists; reflexivity|].
  destruct (Np.array_equal _ _); lia.
Qed.

Lemma train_loop_inv (samples : list (Np.ndarray1 * Np.ndarray1)) :
  forall (e n i : nat) (st st' : Network.locals),
    Network.train_loop e n i samples st = Some st' ->
    (exists ls', Network.net st' = Network.with_layers (Network.net st) ls') /\
    (Network.num_correct st' <= Network.num_correct st + length samples)%nat /\
    Network.i_var st' = last_index i (length samples) (Network.i_var st).
Proof.
  induction samples as [|[X y] samples IH]; intros e n i st st' H.
  - simpl in H. inv H. split; [|split; [simpl; lia | reflexivity]].
    exists (Network.layers (Network.net st')). now rewrite with_layers_id.
  - cbn [Network.train_loop] in H. unbind H. destruct a as [[self1 agg] nc].
    apply train_sample_inv in Ha. destruct Ha as [(ls1 & ->) Hnc].
    unbind H. rename a into upd. unbind H. destruct a as [self2 tr2].
    assert (Hs2 : exists ls2, self2 = Network.with_layers (Network.net st) ls2).
    { destruct upd.
      - unfold Network._update_parameters in Ha0. unbind Ha0. unbind Ha1.
        inv Ha0. inv Ha1. eexists; reflexivity.
      - inv Ha0. eexists; reflexivity. }
    destruct Hs2 as (ls2 & ->).
    apply IH in H. cbn [Network.net Network.num_correct Network.i_var] in H.
    destruct H as ((ls' & Hnet) & Hc & Hi).
    split; [exists ls'; rewrite Hnet; reflexivity|].
    split; [cbn [length]; lia|].
    rewrite Hi. apply (last_index_step i (length samples) (Network.i_var st)).
Qed.

Lemma val_loop_inv (samples : list (Np.ndarray1 * Np.ndarray1)) :
  forall (i : nat) (vc vc' : list nat) (st st' : Network.locals),
    Network.val_loop i samples vc st = Some (st', vc') ->
    (exists ls', Network.net st' = Network.with_layers (Network.net st) ls') /\
    (Network.num_correct st' <= Network.num_correct st + length samples)%nat /\
    Network.i_var st' = last_index i (length samples) (Network.i_var st).
Proof.
  induction samples as [|[X y] samples IH]; intros i vc vc' st st' H.
  - simpl in H. inv H. split; [|split; [simpl; lia | reflexivity]].
    exists (Network.layers (Network.net st')). now rewrite with_layers_id.
  - cbn [Network.val_loop] in H. unbind H.
    destruct a as [[[self1 agg] nc] vc1].
    assert (Hs : (exists ls1, self1 = Network.with_layers (Network.net st) ls1)
                 /\ (nc <= S (Network.num_correct st))%nat).
    { unfold Network.val_sample in Ha.
      unbind Ha. destruct a as [s1 y_hat]. rename Ha0 into Ef.
      apply forward_pass_inv in Ef. destruct Ef as (ls1 & ->).
      unbind Ha. rename a into k.
      destruct (Np.array_equal _ _).
      - unbind Ha. inv Ha. split; [eexists; reflexivity | lia].
      - inv Ha. split; [eexists; reflexivity | lia]. }
    destruct Hs as [(ls1 & ->) Hnc].
    apply IH in H. cbn [Network.net Network.num_correct Network.i_var] in H.
    destruct H as ((ls' & Hnet) & Hc & Hi).
    split; [exists ls'; rewrite Hnet; reflexivity|].
    split; [cbn [length]; lia|].
    rewrite Hi. apply (last_index_step i (length samples) (Network.i_var st)).
Qed.

Lemma fraction_of_counts (nc n i : nat) (iv : option nat) :
  (nc <= 0 + n)%nat -> last_index 0 n iv = Some i ->
  0 <= INR nc / INR (i + 1) <= 1.
Proof.
  intros Hnc Hi.
  assert (Hle : (nc <= i + 1)%nat).
  { destruct n as [|n']; simpl in Hi; [lia|]. injection Hi as <-. lia. }
  assert (Hpos : 0 < INR (i + 1)) by (apply lt_0_INR; lia).
  pose proof (pos_INR nc) as H0. apply le_INR in Hle.
  split.
  - apply Rmult_le_pos; [exact H0 | left; apply Rinv_0_lt_compat; exact Hpos].
  - apply (Rmult_le_reg_r (INR (i + 1))); [exact Hpos|].
    unfold Rdiv. rewrite Rmult_assoc, Rinv_l by lra. lra.
Qed.

Lemma fit_epoch_fractions (self self' : Network.t)
      (X_train y_train : list Np.ndarray1)
      (X_val y_val : option (list Np.ndarray1)) (epoch : nat)
      (iv iv' : option nat) (tr tr' : list event) :
  Network.fit_epoch self X_train y_train X_val y_val epoch iv tr
    = Some (self', iv', tr') ->
  Forall is_fraction (Network.train_accuracy self) ->
  Forall is_fraction (Network.val_accuracy self) ->
  Forall is_fraction (Network.train_accuracy self') /\
  Forall is_fraction (Network.val_accuracy self').
Proof.
  unfold Network.fit_epoch. intros H Ht Hv.
  unbind H. rename a into st. rename Ha into Etl.
  unbind H. rename a into i. rename Ha into Ei.
  apply train_loop_inv in Etl.
  cbn [Network.net Network.num_correct Network.i_var] in Etl.
  destruct Etl as ((ls & Hnet) & Hnc & Hi). rewrite Hi in Ei.
  pose proof (fraction_of_counts _ _ _ _ Hnc Ei) as Hfrac.
  assert (Ht1 : Forall is_fraction
                  (Network.train_accuracy self
                   ++ [(epoch, INR (Network.num_correct st) / INR (i + 1))])).
  { apply Forall_app. split; [exact Ht|]. constructor; [exact Hfrac | constructor]. }
  destruct X_val as [Xv|]; [destruct y_val as [yv|]|].
  - unbind H. destruct a as [self2 i2]. inv H.
    unfold Network.validation_pass in Ha. unbind Ha. rename a into y0.
    unbind Ha. destruct a as [st2 vc2]. unbind Ha. rename a into i3. inv Ha.
    apply val_loop_inv in Ha1.
    cbn [Network.net Network.num_correct Network.i_var] in Ha1.
    destruct Ha1 as ((ls2 & Hnet2) & Hnc2 & Hi2). rewrite Hi2 in Ha2.
    pose proof (fraction_of_counts _ _ _ _ Hnc2 Ha2) as Hfrac2.
    rewrite Hnet2, Hnet. cbn. split; [exact Ht1|].
    apply Forall_app. split; [exact Hv|]. constructor; [exact Hfrac2 | constructor].
  - inv H. rewrite Hnet. cbn. auto.
  - inv H. rewrite Hnet. cbn. auto.
Qed.

Lemma fit_epochs_fractions (X_train y_train : list Np.ndarray1)
      (X_val y_val : option (list Np.ndarray1)) :
  forall (count : nat) (self self' : Network.t) (epoch : nat)
         (iv iv' : option nat) (tr tr' : list event),
    Network.fit_epochs self X_train y_train X_val y_val epoch count iv tr
      = Some (self', iv', tr') ->
    Forall is_fraction (Network.train_accuracy self) ->
    Forall is_fraction (Network.val_accuracy self) ->
    Forall is_fraction (Network.train_accuracy self') /\
    Forall is_fraction (Network.val_accuracy self').
Proof.
  induction count as [|count IH]; intros self self' epoch iv iv' tr tr' H Ht Hv.
  - simpl in H. inv H. auto.
  - cbn [Network.fit_epochs] in H. unbind H. destruct a as [[self1 i1] tr1].
    destruct (fit_epoch_fractions _ _ _ _ _ _ _ _ _ _ _ Ha Ht Hv) as [Ht1 Hv1].
    eapply IH; eauto.
Qed.

(** X14. Every accuracy [fit] records, for training and for validation,
    lies between 0 and 1: the count of correct predictions never exceeds
    the divisor [i + 1], also when the validation set is empty and [i] is
    left over from the training loop. *)
Theorem fit_accuracies_are_fractions :
  forall (self self' : Network.t) (X_train y_train : list Np.ndarray1)
         (X_val y_val : option (list Np.ndarray1)) (epochs : nat)
         (tr : list event),
    Network.fit self X_train y_train X_val y_val epochs = Some (self', tr) ->
    Forall is_fraction (Network.train_accuracy self') /\
    Forall is_fraction (Network.val_accuracy self').
Proof.
  intros self self' X y Xv yv epochs tr H. unfold Network.fit in H.
  unbind H. destruct a as [[s i] t]. inv H.
  eapply fit_epochs_fractions; eauto; constructor.
Qed.

Lemma fit_accuracies_are_fractions_witness :
  exists (self' : Network.t) (tr : list event),
    Network.fit toy_network (ones 3) (ones 3) (Some (ones 2)) (Some (ones 2)) 2
      = Some (self', tr) /\
    Forall is_fraction (Network.train_accuracy self') /\
    Forall is_fraction (Network.val_accuracy self').
Proof.
  destruct (fit_total 1 1 toy_network (ones 3) (ones 3)
              (Some (ones 2)) (Some (ones 2)) 2 toy_network_ok (ones_ok 3))
    as (self' & ls_f & tr & E & _); [discriminate | apply ones_val_ok |].
  exists self', tr. split; [exact E|].
  apply (fit_accuracies_are_fractions _ _ _ _ _ _ _ _ E).
Defined.

(** ** Updates and calls in a row *)

(** X15. A second [update_parameters] right after a first changes
    nothing: the first leaves the buffers empty, and an update with empty
    buffers gives the layer back as it is. *)
Theorem update_parameters_twice :
  forall self self1 : HiddenLayer.t,
    HiddenLayer.update_parameters self = Some self1 ->
    HiddenLayer.update_parameters self1 = Some self1.
Proof.
  intros self self1 H. apply hidden_update_frame in H.
  destruct H as (_ & _ & _ & _ & _ & HG & Hv).
  destruct self1 as [sz W b lr act Wg bg inp out]. simpl in HG, Hv. subst.
  unfold HiddenLayer.update_parameters; simpl. do 2 f_equal.
  - destruct W as [m rs]; simpl. f_equal.
    apply map_id_ext; intros r. apply map_id_ext; intros w. ring.
  - apply map_id_ext; intros w. ring.
Qed.

Lemma update_parameters_twice_witness :
  exists self1 : HiddenLayer.t,
    HiddenLayer.update_parameters relu_unit_pending = Some self1 /\
    HiddenLayer.update_parameters self1 = Some self1.
Proof.
  destruct (hidden_update_total 1 relu_unit_pending relu_unit_pending_ok)
    as (self1 & E & _).
  exists self1. split; [exact E|].
  apply (update_parameters_twice relu_unit_pending self1 E).
Defined.

(** X16. [fit] returns a network with the hyperparameters, the strategies
    and the layer dimensions it was given: whatever could be fitted can be
    fitted again, and [predict] returns on it for every input of the right
    width. *)
Theorem fit_then_fit_or_predict :
  forall (d d' : nat) (self : Network.t) (X_train y_train : list Np.ndarray1)
         (X_val y_val : option (list Np.ndarray1)) (epochs epochs2 : nat)
         (X : Np.ndarray1),
    net_ok d d' self -> data_ok d d' X_train y_train -> X_train <> [] ->
    val_ok d d' X_val y_val -> length X = d ->
    exists (self' : Network.t) (tr : list event),
      Network.fit self X_train y_train X_val y_val epochs = Some (self', tr) /\
      same_config self self' /\
      (exists r, Network.fit self' X_train y_train X_val y_val epochs2 = Some r) /\
      (exists r, Network.predict self' X = Some r).
Proof.
  intros d d' self X_train y_train Xv yv epochs epochs2 X Hok Hdata HX Hval HXd.
  destruct (fit_total d d' self X_train y_train Xv yv epochs Hok Hdata HX Hval)
    as (self' & ls_f & tr & E & _ & _ & Hok' & Hcfg & _).
  exists self', tr. split; [exact E|]. split; [exact Hcfg|]. split.
  - destruct (fit_total d d' self' X_train y_train Xv yv epochs2 Hok' Hdata HX Hval)
      as (s2 & _ & tr2 & E2 & _). eauto.
  - destruct Hok' as (Hc & Hd & _).
    destruct (forward_total _ d d' X Hc HXd) as (ls1 & y_hat & Ef & Hy & _).
    destruct (argmax_total y_hat) as (k & Ek & _); [lia|].
    unfold Network.predict, Network._forward_pass. rewrite Ef; cbn [bind].
    rewrite Ek. cbn [bind]. eauto.
Qed.

Lemma fit_then_fit_or_predict_witness :
  exists (self' : Network.t) (tr : list event),
    Network.fit toy_network (ones 3) (ones 3) None None 2 = Some (self', tr) /\
    (exists r, Network.fit self' (ones 3) (ones 3) None None 1 = Some r) /\
    (exists r, Network.predict self' [5] = Some r).
Proof.
  destruct (fit_then_fit_or_predict 1 1 toy_network (ones 3) (ones 3) None None
              2 1 [5] toy_network_ok (ones_ok 3))
    as (self' & tr & E & _ & H1 & H2);
    [discriminate | exact I | reflexivity |].
  exists self', tr. auto.
Defined.

(** ** A regularization coefficient of zero *)

Lemma add_regularization_zero (self : Network.t) (a : R) :
  Network.wreg self = 0 -> Network.add_regularization self a = a.
Proof.
  intros H0. unfold Network.add_regularization.
  destruct (Network.wrt self) as [reg|]; [|reflexivity].
  rewrite H0. generalize a. clear.
  induction (Network.layers self) as [|[i|h|s] ls IH]; intros a; simpl; auto.
  rewrite IH. ring.
Qed.

Lemma forward_pass_unregularized (self : Network.t) (X : Np.ndarray1) :
  Network._forward_pass (unregularized self) X
  = option_map (fun r => (unregularized (fst r), snd r))
               (Network._forward_pass self X).
Proof.
  unfold Network._forward_pass. cbn [unregularized Network.layers].
  destruct (Network.thread Layer_forward_pass (Network.layers self) X)
    as [[ls o]|]; reflexivity.
Qed.

Lemma backward_pass_unregularized (self : Network.t) (J : Np.ndarray1) :
  Network._backward_pass (unregularized self) J
  = option_map unregularized (Network._backward_pass self J).
Proof.
  unfold Network._backward_pass. cbn [unregularized Network.layers].
  destruct (Network.thread Layer_backward_pass (rev (Network.layers self)) J)
    as [[ls o]|]; reflexivity.
Qed.

Lemma update_unregularized (self : Network.t) :
  Network._update_parameters (unregularized self)
  = option_map unregularized (Network._update_parameters self).
Proof.
  unfold Network._update_parameters. cbn [unregularized Network.layers].
  destruct (Network.update_layers (Network.layers self)); reflexivity.
Qed.

Lemma train_sample_unregularized (self : Network.t) (agg : R) (nc : nat)
      (X y : Np.ndarray1) :
  Network.wreg self = 0 ->
  Network.train_sample (unregularized self) agg nc X y
  = option_map (fun r => (unregularized (fst (fst r)), snd (fst r), snd r))
               (Network.train_sample self agg nc X y).
Proof.
  intros H0. unfold Network.train_sample. rewrite forward_pass_unregularized.
  destruct (Network._forward_pass self X) as [[s1 y_hat]|] eqn:Ef; [|reflexivity].
  apply forward_pass_inv in Ef. destruct Ef as (ls1 & ->).
  cbn [option_map bind fst snd].
  rewrite (add_regularization_zero (Network.with_layers self ls1)) by exact H0.
  rewrite (add_regularization_zero
             (unregularized (Network.with_layers self ls1))) by exact H0.
  destruct (Np.argmax y_hat) as [k|]; [|reflexivity]. cbn [bind].
  rewrite backward_pass_unregularized.
  cbn [unregularized Network.loss_function Network.with_layers].
  destruct (Network._backward_pass (Network.with_layers self ls1)
              (Loss.gradient (Network.loss_function self) y_hat y));
    reflexivity.
Qed.

Lemma train_loop_unregularized (samples : list (Np.ndarray1 * Np.ndarray1)) :
  forall (e n i : nat) (st : Network.locals),
    Network.wreg (Network.net st) = 0 ->
    Network.train_loop e n i samples (unregularized_locals st)
    = option_map unregularized_locals (Network.train_loop e n i samples st).
Proof.
  induction samples as [|[X y] samples IH]; intros e n i st H0; [reflexivity|].
  cbn [Network.train_loop unregularized_locals Network.net Network.aggregated
       Network.num_correct Network.trace].
  rewrite train_sample_unregularized by exact H0.
  destruct (Network.train_sample (Network.net st) (Network.aggregated st)
              (Network.num_correct st) X y) as [[[s1 agg] nc]|] eqn:Es;
    [|reflexivity].
  apply train_sample_inv in Es. destruct Es as [(ls1 & ->) _].
  cbn [option_map bind fst snd].
  unfold Network.batch_processed.
  cbn [unregularized Network.batch_size Network.with_layers].
  destruct (Network.batch_size (Network.net st) =? 0)%Z; [reflexivity|].
  cbn [bind].
  destruct (Z.of_nat (e * n + i + 1) mod Network.batch_size (Network.net st) =? 0)%Z.
  - rewrite update_unregularized.
    destruct (Network._update_parameters (Network.with_layers (Network.net st) ls1))
      as [s2|] eqn:Eu; [|reflexivity].
    unfold Network._update_parameters in Eu. unbind Eu. inv Eu.
    cbn [option_map bind].
    apply (IH e n (S i)
             {| Network.net :=
                  Network.with_layers (Network.with_layers (Network.net st) ls1) a;
                Network.aggregated := agg; Network.num_correct := nc;
                Network.i_var := Some i;
                Network.trace := Network.trace st ++ [EvSample; EvUpdate] |}).
    exact H0.
  - cbn [bind].
    apply (IH e n (S i)
             {| Network.net := Network.with_layers (Network.net st) ls1;
                Network.aggregated := agg; Network.num_correct := nc;
                Network.i_var := Some i;
                Network.trace := Network.trace st ++ [EvSample] |}).
    exact H0.
Qed.

Lemma val_sample_unregularized (self : Network.t) (agg : R) (nc : nat)
      (vc : list nat) (X y : Np.ndarray1) :
  Network.wreg self = 0 ->
  Network.val_sample (unregularized self) agg nc vc X y
  = option_map (fun r => (unregularized (fst (fst (fst r))),
                          snd (fst (fst r)), snd (fst r), snd r))
               (Network.val_sample self agg nc vc X y).
Proof.
  intros H0. unfold Network.val_sample. rewrite forward_pass_unregularized.
  destruct (Network._forward_pass self X) as [[s1 y_hat]|] eqn:Ef; [|reflexivity].
  apply forward_pass_inv in Ef. destruct Ef as (ls1 & ->).
  cbn [option_map bind fst snd].
  rewrite (add_regularization_zero (Network.with_layers self ls1)) by exact H0.
  rewrite (add_regularization_zero
             (unregularized (Network.with_layers self ls1))) by exact H0.
  destruct (Np.argmax y_hat) as [k|]; [|reflexivity]. cbn [bind].
  destruct (Np.array_equal (Np.one_hot (length y_hat) k) y); [|reflexivity].
  destruct (Network.incr vc k); reflexivity.
Qed.

Lemma val_loop_unregularized (samples : list (Np.ndarray1 * Np.ndarray1)) :
  forall (i : nat) (vc : list nat) (st : Network.locals),
    Network.wreg (Network.net st) = 0 ->
    Network.val_loop i samples vc (unregularized_locals st)
    = option_map (fun r => (unregularized_locals (fst r), snd r))
                 (Network.val_loop i samples vc st).
Proof.
  induction samples as [|[X y] samples IH]; intros i vc st H0; [reflexivity|].
  cbn [Network.val_loop unregularized_locals Network.net Network.aggregated
       Network.num_correct Network.trace].
  rewrite val_sample_unregularized by exact H0.
  destruct (Network.val_sample (Network.net st) (Network.aggregated st)
              (Network.num_correct st) vc X y) as [[[[s1 agg] nc] vc1]|] eqn:Es;
    [|reflexivity].
  assert (Hs : exists ls1, s1 = Network.with_layers (Network.net st) ls1).
  { unfold Network.val_sample in Es. unbind Es. destruct a as [s y_hat].
    apply forward_pass_inv in Ha. destruct Ha as (ls1 & ->).
    unbind Es. destruct (Np.array_equal _ _).
    - unbind Es. inv Es. eexists; reflexivity.
    - inv Es. eexists; reflexivity. }
  destruct Hs as (ls1 & ->).
  cbn [option_map bind fst snd].
  apply (IH (S i) vc1
           {| Network.net := Network.with_layers (Network.net st) ls1;
              Network.aggregated := agg; Network.num_correct := nc;
              Network.i_var := Some i; Network.trace := Network.trace st |}).
  exact H0.
Qed.

Lemma fit_epoch_unregularized (self : Network.t)
      (X_train y_train : list Np.ndarray1)
      (X_val y_val : option (list Np.ndarray1)) (epoch : nat)
      (iv : option nat) (tr : list event) :
  Network.wreg self = 0 ->
  Network.fit_epoch (unregularized self) X_train y_train X_val y_val epoch iv tr
  = option_map (fun r => (unregularized (fst (fst r)), snd (fst r), snd r))
      (Network.fit_epoch self X_train y_train X_val y_val epoch iv tr).
Proof.
  intros H0. unfold Network.fit_epoch.
  pose proof (train_loop_unregularized (combine X_train y_train) epoch
                (length X_train) 0
                {| Network.net := self; Network.aggregated := 0;
                   Network.num_correct := 0%nat; Network.i_var := iv;
                   Network.trace := tr |} H0) as Htl.
  unfold unregularized_locals in Htl.
  cbn [Network.net Network.aggregated Network.num_correct
       Network.i_var Network.trace] in Htl.
  rewrite Htl. clear Htl.
  match goal with
  | |- bind (option_map _ ?t) _ = option_map _ (bind ?u _) => change t with u
  end.
  destruct (Network.train_loop epoch (length X_train) 0 (combine X_train y_train) _)
    as [st|] eqn:Es; [|reflexivity].
  apply train_loop_inv in Es. destruct Es as ((ls & Hnet) & _ & _).
  cbn [Network.net] in Hnet.
  cbn [option_map bind unregularized_locals Network.i_var Network.net
       Network.aggregated Network.num_correct Network.trace].
  destruct (Network.i_var st) as [i|]; [|reflexivity]. cbn [bind].
  destruct X_val as [Xv|]; [destruct y_val as [yv|]|]; try reflexivity.
  unfold Network.validation_pass.
  destruct (nth_error yv 0) as [y0|]; [|reflexivity]. cbn [bind].
  pose proof (val_loop_unregularized (combine Xv yv) 0
                (repeat 0%nat (length y0))
                {| Network.net :=
                     Network.record_train (Network.net st) epoch
                       (Network.aggregated st / INR (i + 1))
                       (INR (Network.num_correct st) / INR (i + 1));
                   Network.aggregated := 0; Network.num_correct := 0%nat;
                   Network.i_var := Some i; Network.trace := Network.trace st |})
    as Hvl.
  unfold unregularized_locals in Hvl.
  cbn [Network.net Network.aggregated Network.num_correct
       Network.i_var Network.trace] in Hvl.
  change (unregularized
            (Network.record_train (Network.net st) epoch
               (Network.aggregated st / INR (i + 1))
               (INR (Network.num_correct st) / INR (i + 1))))
    with (Network.record_train (unregularized (Network.net st)) epoch
            (Network.aggregated st / INR (i + 1))
            (INR (Network.num_correct st) / INR (i + 1))) in Hvl.
  rewrite Hvl by (rewrite Hnet; exact H0). clear Hvl.
  match goal with
  | |- bind (bind (option_map _ ?t) _) _
       = option_map _ (bind (bind ?u _) _) => change t with u
  end.
  destruct (Network.val_loop 0 (combine Xv yv) (repeat 0%nat (length y0)) _)
    as [[st2 vc2]|]; [|reflexivity].
  cbn [option_map bind fst snd unregularized_locals Network.i_var Network.net
       Network.aggregated Network.num_correct].
  destruct (Network.i_var st2); reflexivity.
Qed.

Lemma fit_epochs_unregularized (X_train y_train : list Np.ndarray1)
      (X_val y_val : option (list Np.ndarray1)) :
  forall (count : nat) (self : Network.t) (epoch : nat)
         (iv : option nat) (tr : list event),
    Network.wreg self = 0 ->
    Network.fit_epochs (unregularized self) X_train y_train X_val y_val
      epoch count iv tr
    = option_map (fun r => (unregularized (fst (fst r)), snd (fst r), snd r))
        (Network.fit_epochs self X_train y_train X_val y_val epoch count iv tr).
Proof.
  induction count as [|count IH]; intros self epoch iv tr H0; [reflexivity|].
  cbn [Network.fit_epochs]. rewrite fit_epoch_unregularized by exact H0.
  destruct (Network.fit_epoch self X_train y_train X_val y_val epoch iv tr)
    as [[[s1 i1] tr1]|] eqn:E; [|reflexivity].
  cbn [option_map bind fst snd]. apply IH.
  unfold Network.fit_epoch in E. unbind E. unbind E.
  apply train_loop_inv in Ha. destruct Ha as ((ls & Hnet) & _ & _).
  cbn [Network.net] in Hnet.
  destruct X_val as [Xv|]; [destruct y_val as [yv|]|].
  - unbind E. destruct a1 as [s2 i2]. inv E.
    unfold Network.validation_pass in Ha. unbind Ha. unbind Ha.
    destruct a2 as [st2 vc2]. unbind Ha. inv Ha.
    apply val_loop_inv in Ha2. destruct Ha2 as ((ls2 & Hnet2) & _ & _).
    cbn [Network.net] in Hnet2. rewrite Hnet2, Hnet. exact H0.
  - inv E. rewrite Hnet. exact H0.
  - inv E. rewrite Hnet. exact H0.
Qed.

(** X17. With a regularization coefficient [wreg] of 0, [fit] behaves as
    with no regularization strategy configured at all: it records the same
    losses and accuracies and leaves the same layers. *)
Theorem fit_zero_regularization :
  forall (self : Network.t) (X_train y_train : list Np.ndarray1)
         (X_val y_val : option (list Np.ndarray1)) (epochs : nat),
    Network.wreg self = 0 ->
    Network.fit (unregularized self) X_train y_train X_val y_val epochs
    = option_map (fun r => (unregularized (fst r), snd r))
        (Network.fit self X_train y_train X_val y_val epochs).
Proof.
  intros self X y Xv yv epochs H0. unfold Network.fit.
  change (Network.clear_history (unregularized self))
    with (unregularized (Network.clear_history self)).
  rewrite fit_epochs_unregularized by exact H0.
  destruct (Network.fit_epochs (Network.clear_history self) X y Xv yv 0 epochs
              None []) as [[[s i] tr]|]; reflexivity.
Qed.

Lemma fit_zero_regularization_witness :
  Network.fit (unregularized toy_regularized) (ones 3) (ones 3) None None 2
  = option_map (fun r => (unregularized (fst r), snd r))
      (Network.fit toy_regularized (ones 3) (ones 3) None None 2).
Proof.
  apply (fit_zero_regularization toy_regularized (ones 3) (ones 3) None None 2).
  reflexivity.
Defined.

(** ** A batch of one sample *)

(** X18. On a Hidden layer with empty buffers, one sample sent forward,
    its gradient [J] sent backward and one update move the parameters by
    [W[i][j] -= learning_rate * J[j] * X[i] * gradient(J[j])] and
    [b[j] -= learning_rate * gradient(J[j])], and leave the buffers empty:
    the step taken on the bias does not scale with the upstream gradient. *)
Theorem hidden_single_sample_step :
  forall (n : nat) (self : HiddenLayer.t) (X J : Np.ndarray1),
    hidden_ok n self ->
    HiddenLayer.W_gradients self = [] -> HiddenLayer.b_gradients self = [] ->
    length X = n -> length J = HiddenLayer.size self ->
    exists self' : HiddenLayer.t,
      do_calls self [CallForward X; CallBackward J; CallUpdate] = Some self' /\
      (forall i j, (i < n)%nat -> (j < HiddenLayer.size self)%nat ->
         entry (HiddenLayer.W self') i j
         = entry (HiddenLayer.W self) i j
           - HiddenLayer._learning_rate self
             * (nth j J 0
                * (nth i X 0
                   * Activation.gradient (HiddenLayer._activation self)
                       (nth j J 0)))) /\
      (forall j, (j < HiddenLayer.size self)%nat ->
         nth j (HiddenLayer.b self') 0
         = nth j (HiddenLayer.b self) 0
           - HiddenLayer._learning_rate self
             * Activation.gradient (HiddenLayer._activation self) (nth j J 0)) /\
      HiddenLayer.W_gradients self' = [] /\
      HiddenLayer.b_gradients self' = [].
Proof.
  intros n self X J Hok HG Hv HX HJ.
  destruct (hidden_forward_total n self X Hok HX)
    as (s1 & out & E1 & _ & Hsz1 & Hok1 & Hin1).
  pose proof (hidden_forward_frame _ _ _ _ E1)
    as (_ & HW1 & Hb1 & Hlr1 & Hact1 & HG1 & Hv1 & _).
  destruct (hidden_backward_entries n s1 X J Hok1 Hin1 HX)
    as (s2 & J' & G & v & E2 & HG2 & Hv2 & HeG & Hev); [congruence|].
  pose proof (hidden_backward_frame _ _ _ _ E2)
    as (Hsz2 & HW2 & Hb2 & Hlr2 & Hact2 & _).
  assert (Hok2 : hidden_ok n s2).
  { destruct (hidden_backward_total n s1 X J Hok1 Hin1 HX) as (s2' & J2 & E2' & _ & _ & H);
      [congruence|]. rewrite E2 in E2'. now inv E2'. }
  destruct (hidden_update_total n s2 Hok2) as (s3 & E3 & _ & HeW & Heb).
  pose proof (hidden_update_frame _ _ E3) as (_ & _ & _ & _ & _ & HG3 & Hv3).
  exists s3. split.
  { cbn [do_calls do_call]. rewrite E1; cbn [bind]. rewrite E2; cbn [bind].
    rewrite E3. reflexivity. }
  split; [|split; [|split; assumption]].
  - intros i j Hi Hj. rewrite HeW by (rewrite ?Hsz2, ?Hsz1; lia).
    rewrite HW2, HW1, Hlr2, Hlr1, HG2, HG1, HG. cbn [app map].
    rewrite HeG by (rewrite ?Hsz1; lia). rewrite Hact1.
    unfold Np.sum; simpl. ring.
  - intros j Hj. rewrite Heb by (rewrite ?Hsz2, ?Hsz1; lia).
    rewrite Hb2, Hb1, Hlr2, Hlr1, Hv2, Hv1, Hv. cbn [app map].
    rewrite Hev by (rewrite ?Hsz1; lia). rewrite Hact1.
    unfold Np.sum; simpl. ring.
Qed.

Lemma hidden_single_sample_step_witness :
  exists self' : HiddenLayer.t,
    do_calls relu_unit [CallForward [1]; CallBackward [3]; CallUpdate]
      = Some self' /\
    HiddenLayer.W_gradients self' = [] /\ HiddenLayer.b_gradients self' = [].
Proof.
  destruct (hidden_single_sample_step 1 relu_unit [1] [3] relu_unit_ok
              eq_refl eq_refl eq_refl eq_refl)
    as (self' & E & _ & _ & HG & Hv).
  exists self'. auto.
Defined.
